(** * A shallow embedding of the go_blockchain ledger

    The program is a single-process, in-memory chain of hash-linked blocks
    with UTXO accounting and a proof-of-work seal.  This development embeds
    the ledger engine: the main program whose blocks carry transactions, and
    transactions/transaction.go.  (The repository also holds an earlier
    variant of the main program, whose blocks carry an integer and which is
    sealed at difficulty 6; its genesis, validity check and sealing loop are
    the same.)

    Conventions of the embedding:
    - a Go [string] is a byte sequence, here a [string] of 8-bit [ascii];
    - a Go [int] is a 64-bit two's complement integer, here a [Z] with the
      wrap-around of [+] and [-] written out ([wrap_int]);
    - [map[string][]int] is a [gmap string (list Z)]; the order in which
      [range] walks a map is chosen by the runtime, so it is an explicit
      argument wherever the code ranges over a map;
    - [time.Now().String()] is an input of the operation that reads the clock;
    - [encoding/gob] is outside the repository: the encoder is a parameter
      ([GobEncoder]); it encodes every transaction, so the [log.Panic] of
      [SetID] is never reached;
    - [crypto/sha256] and [encoding/hex] are modelled by their specification
      (FIPS 180-4, lower-case base 16), so that digests can be computed. *)

From Stdlib Require Import ZArith Ascii String List Lia Permutation.
From stdpp Require Import gmap strings list fin_maps.
Import ListNotations.

(** ** Bytes and strings *)

Definition byte_of_ascii (c : ascii) : Z := Z.of_N (N_of_ascii c).
Definition ascii_of_byte (b : Z) : ascii := ascii_of_N (Z.to_N (b mod 256)).

(** [[]byte(s)] *)
Fixpoint bytes_of_string (s : string) : list Z :=
  match s with
  | EmptyString => []
  | String c r => byte_of_ascii c :: bytes_of_string r
  end.

(** [string(bs)] *)
Fixpoint string_of_bytes (bs : list Z) : string :=
  match bs with
  | [] => EmptyString
  | b :: r => String (ascii_of_byte b) (string_of_bytes r)
  end.

(** ** crypto/sha256 (FIPS 180-4) *)

Module SHA256.
Local Open Scope Z_scope.

Definition w32 (x : Z) : Z := Z.land x 0xffffffff.
Definition add32 (x y : Z) : Z := w32 (x + y).
Definition rotr (n x : Z) : Z :=
  Z.lor (Z.shiftr x n) (w32 (Z.shiftl x (32 - n))).
Definition not32 (x : Z) : Z := 4294967295 - x.

Definition Ch (x y z : Z) : Z := Z.lxor (Z.land x y) (Z.land (not32 x) z).
Definition Maj (x y z : Z) : Z :=
  Z.lxor (Z.lxor (Z.land x y) (Z.land x z)) (Z.land y z).
Definition Sigma0 (x : Z) : Z := Z.lxor (Z.lxor (rotr 2 x) (rotr 13 x)) (rotr 22 x).
Definition Sigma1 (x : Z) : Z := Z.lxor (Z.lxor (rotr 6 x) (rotr 11 x)) (rotr 25 x).
Definition sigma0 (x : Z) : Z := Z.lxor (Z.lxor (rotr 7 x) (rotr 18 x)) (Z.shiftr x 3).
Definition sigma1 (x : Z) : Z := Z.lxor (Z.lxor (rotr 17 x) (rotr 19 x)) (Z.shiftr x 10).

(** The first 64 primes. *)
Definition is_prime (p : Z) : bool :=
  forallb (fun d => negb (p mod d =? 0)) (map Z.of_nat (seq 2 (Z.to_nat p - 2))).
Definition primes : list Z :=
  filter (fun p => is_prime p = true) (map Z.of_nat (seq 2 310)).

(** The integer cube root, bit by bit from bit [n - 1] down. *)
Fixpoint cube_root (n : nat) (x r : Z) : Z :=
  match n with
  | O => r
  | S m =>
      let r' := r + 2 ^ Z.of_nat m in
      cube_root m x (if r' * r' * r' <=? x then r' else r)
  end.

(** The round constants: the first 32 bits of the fractional parts of the
    cube roots of the first 64 primes. *)
Definition K : list Z :=
  Eval vm_compute in map (fun p => w32 (cube_root 36 (p * 2 ^ 96) 0)) primes.

(** The initial hash value: the same of the square roots of the first 8. *)
Definition H0 : list Z :=
  Eval vm_compute in map (fun p => w32 (Z.sqrt (p * 2 ^ 64))) (firstn 8 primes).

(** Big-endian bytes of a number, [n] of them. *)
Fixpoint be_bytes (n : nat) (x : Z) : list Z :=
  match n with
  | O => []
  | S m => Z.land (Z.shiftr x (8 * Z.of_nat m)) 0xff :: be_bytes m x
  end.

(** The message, a 1 bit, zeros up to 56 mod 64, the bit length on 8 bytes. *)
Definition pad (msg : list Z) : list Z :=
  let len := Z.of_nat (length msg) in
  let zeros := Z.to_nat ((55 - len) mod 64) in
  msg ++ [128] ++ repeat 0 zeros ++ be_bytes 8 (8 * len).

(** The 32-bit big-endian words of a byte sequence. *)
Fixpoint words (fuel : nat) (bs : list Z) : list Z :=
  match fuel, bs with
  | S f, b0 :: b1 :: b2 :: b3 :: r =>
      (((b0 * 256 + b1) * 256 + b2) * 256 + b3) :: words f r
  | _, _ => []
  end.

(** Message schedule, newest word first: [rev_w] holds W(t-1) ... W(0). *)
Fixpoint schedule (n : nat) (rev_w : list Z) : list Z :=
  match n with
  | O => rev_w
  | S m =>
      let w := add32 (add32 (sigma1 (nth 1 rev_w 0)) (nth 6 rev_w 0))
                     (add32 (sigma0 (nth 14 rev_w 0)) (nth 15 rev_w 0)) in
      schedule m (w :: rev_w)
  end.

Record regs := Regs { ra : Z; rb : Z; rc : Z; rd : Z; re : Z; rf : Z; rg : Z; rh : Z }.

Definition round (s : regs) (kw : Z * Z) : regs :=
  let '(k, w) := kw in
  let t1 := add32 (add32 (add32 (rh s) (Sigma1 (re s))) (add32 (Ch (re s) (rf s) (rg s)) k)) w in
  let t2 := add32 (Sigma0 (ra s)) (Maj (ra s) (rb s) (rc s)) in
  Regs (add32 t1 t2) (ra s) (rb s) (rc s) (add32 (rd s) t1) (re s) (rf s) (rg s).

Definition regs_of (h : list Z) : regs :=
  Regs (nth 0 h 0) (nth 1 h 0) (nth 2 h 0) (nth 3 h 0)
       (nth 4 h 0) (nth 5 h 0) (nth 6 h 0) (nth 7 h 0).

Definition compress (h : list Z) (block : list Z) : list Z :=
  let w := rev (schedule 48 (rev (words 16 block))) in
  let s0 := regs_of h in
  let s := fold_left round (combine K w) s0 in
  [ add32 (ra s0) (ra s); add32 (rb s0) (rb s); add32 (rc s0) (rc s);
    add32 (rd s0) (rd s); add32 (re s0) (re s); add32 (rf s0) (rf s);
    add32 (rg s0) (rg s); add32 (rh s0) (rh s) ].

Fixpoint blocks (fuel : nat) (h : list Z) (bs : list Z) : list Z :=
  match fuel with
  | O => h
  | S f =>
      match bs with
      | [] => h
      | _ => blocks f (compress h (firstn 64 bs)) (skipn 64 bs)
      end
  end.

(** The 32 bytes of the digest of a byte sequence. *)
Definition digest (msg : list Z) : list Z :=
  let p := pad msg in
  flat_map (be_bytes 4) (blocks (S (length p / 64)) H0 p).
End SHA256.

(** [sha256.Sum256], and [sha256.New] / [Write] / [Sum(nil)], on the bytes of
    a string; the result is the 32 raw bytes of the digest. *)
Definition Sum256 (data : string) : string :=
  string_of_bytes (SHA256.digest (bytes_of_string data)).
Arguments Sum256 : simpl never.

(** ** encoding/hex *)

Definition hexdigit (n : Z) : ascii :=
  match n with
  | 0 => "0" | 1 => "1" | 2 => "2" | 3 => "3" | 4 => "4" | 5 => "5"
  | 6 => "6" | 7 => "7" | 8 => "8" | 9 => "9" | 10 => "a" | 11 => "b"
  | 12 => "c" | 13 => "d" | 14 => "e" | _ => "f"
  end%Z%char.

(** [hex.EncodeToString] *)
Fixpoint EncodeToString (src : string) : string :=
  match src with
  | EmptyString => EmptyString
  | String c r =>
      let b := byte_of_ascii c in
      String (hexdigit (b / 16)) (String (hexdigit (b mod 16)) (EncodeToString r))
  end.

(** ** Go's [int] and [fmt.Sprintf] *)

(** Two's complement wrap-around of a 64-bit [int]. *)
Definition wrap_int (z : Z) : Z := ((z + 2 ^ 63) mod 2 ^ 64 - 2 ^ 63)%Z.
Definition add_int (x y : Z) : Z := wrap_int (x + y).
Definition sub_int (x y : Z) : Z := wrap_int (x - y).
Definition is_int (z : Z) : Prop := (- 2 ^ 63 <= z < 2 ^ 63)%Z.

(** The base-16 digits of a non-negative number, most significant first. *)
Fixpoint hex_digits (fuel : nat) (n : Z) (acc : string) : string :=
  match fuel with
  | O => acc
  | S f =>
      let acc' := String (hexdigit (n mod 16)) acc in
      if (n / 16 =? 0)%Z then acc' else hex_digits f (n / 16) acc'
  end.

(** [fmt.Sprintf("%x", i)] for an [int]: a sign for a negative number, then
    the digits of its magnitude (at most 16 of them). *)
Definition Sprintf_x (i : Z) : string :=
  if (i <? 0)%Z then String "-"%char (hex_digits 16 (- i) EmptyString)
  else hex_digits 16 i EmptyString.

(** [strings.Repeat] *)
Fixpoint Repeat (s : string) (count : nat) : string :=
  match count with
  | O => EmptyString
  | S n => s +:+ Repeat s n
  end.

(** [strings.HasPrefix s prefix] *)
Definition HasPrefix (s prefix : string) : bool := String.prefix prefix s.

(** ** transactions/transaction.go *)

Definition subsidy : Z := 10.

Record TXInput := mkTXInput {
  Txid : string;
  VoutIdx : Z;          (* the field [Vout] of [TXInput] *)
  ScriptSig : string
}.

Record TXOutput := mkTXOutput {
  Value : Z;
  ScriptPubKey : string
}.

Record Transaction := mkTransaction {
  ID : string;
  Vin : list TXInput;
  Vout : list TXOutput
}.

Definition IsCoinbase (tx : Transaction) : bool :=
  match Vin tx with
  | [i] => (String.length (Txid i) =? 0)%nat && (VoutIdx i =? -1)%Z
  | _ => false
  end.

Definition CanUnlockOutputWith (i : TXInput) (unlockingData : string) : bool :=
  String.eqb (ScriptSig i) unlockingData.

Definition CanBeUnlockedWith (out : TXOutput) (unlockingData : string) : bool :=
  String.eqb (ScriptPubKey out) unlockingData.

(** ** main.go: blocks and the chain *)

Definition difficulty : nat := 1.

Definition genesisCoinbaseData : string :=
  "The Times 03/Jan/2009 Chancellor on brink of second bailout for banks".

Record Block := mkBlock {
  Timestamp : string;
  Transactions : list Transaction;
  Hash : string;
  PrevHash : string;
  Nonce : string
}.

(** The mutex of [Blockchain] guards [AddBlock] only; requests are run one
    after the other in this embedding. *)
Record Blockchain := mkBlockchain { blocks : list Block }.

Record SendMessage := mkSendMessage { From : string; To : string; MsgValue : Z }.

(** [new(Block)] and [&Block{}] *)
Definition zero_Block : Block := mkBlock "" [] "" "" "".

Definition set_Nonce (b : Block) (n : string) : Block :=
  mkBlock (Timestamp b) (Transactions b) (Hash b) (PrevHash b) n.
Definition set_Hash (b : Block) (h : string) : Block :=
  mkBlock (Timestamp b) (Transactions b) h (PrevHash b) (Nonce b).

Definition HashTransactions (b : Block) : string :=
  Sum256 (fold_right (fun tx r => ID tx +:+ r) EmptyString (Transactions b)).

Definition calculateHash (block : Block) : string :=
  let record := Timestamp block +:+ PrevHash block +:+ Nonce block in
  EncodeToString (Sum256 (record +:+ HashTransactions block)).

Definition isBlockValid (newBlock oldBlock : Block) : bool :=
  if negb (String.eqb (Hash oldBlock) (PrevHash newBlock)) then false
  else if negb (String.eqb (calculateHash newBlock) (Hash newBlock)) then false
  else true.

(** The count given to [strings.Repeat] is the constant [difficulty], which
    is not negative. *)
Definition isHashValid (hash : string) (difficulty : nat) : bool :=
  let prefix := Repeat "0" difficulty in
  HasPrefix hash prefix.

Definition AddBlock (bc : Blockchain) (newBlock : Block) : Blockchain :=
  mkBlockchain (blocks bc ++ [newBlock]).

(** ** main.go: the UTXO queries *)

(** [m[k]] of a [map[string][]int]: nil when the key is absent. *)
Definition ints_at (m : gmap string (list Z)) (k : string) : list Z :=
  default [] (m !! k).

(** [m[k] = append(m[k], v)] *)
Definition push_int (m : gmap string (list Z)) (k : string) (v : Z) : gmap string (list Z) :=
  <[k := ints_at m k ++ [v]]> m.

(** The loop over [tx.Vin] of a non-coinbase transaction. *)
Fixpoint mark_spent (address : string) (vin : list TXInput)
    (spentTXOs : gmap string (list Z)) : gmap string (list Z) :=
  match vin with
  | [] => spentTXOs
  | i :: rest =>
      if CanUnlockOutputWith i address
      then mark_spent address rest (push_int spentTXOs (Txid i) (VoutIdx i))
      else mark_spent address rest spentTXOs
  end.

(** The loop labelled [Outputs]: [outs] is what is left of [tx.Vout], [outIdx]
    the index of its head. *)
Fixpoint scan_outputs (address : string) (spent : list Z) (tx : Transaction)
    (outIdx : Z) (outs : list TXOutput) (unspentTXs : list Transaction)
    : list Transaction :=
  match outs with
  | [] => unspentTXs
  | out :: rest =>
      if existsb (fun spentOut => (spentOut =? outIdx)%Z) spent
      then scan_outputs address spent tx (outIdx + 1) rest unspentTXs
      else if CanBeUnlockedWith out address
      then scan_outputs address spent tx (outIdx + 1) rest (unspentTXs ++ [tx])
      else scan_outputs address spent tx (outIdx + 1) rest unspentTXs
  end.

(** The body of the loop over the transactions of one block. *)
Definition scan_tx (address : string)
    (st : list Transaction * gmap string (list Z)) (tx : Transaction)
    : list Transaction * gmap string (list Z) :=
  let '(unspentTXs, spentTXOs) := st in
  let spentTXOs :=
    if negb (IsCoinbase tx) then mark_spent address (Vin tx) spentTXOs
    else spentTXOs in
  (scan_outputs address (ints_at spentTXOs (ID tx)) tx 0 (Vout tx) unspentTXs,
   spentTXOs).

(** The loop [for i := len(bc.blocks) - 1; i >= 0; i--], on the blocks newest
    first. *)
Fixpoint scan_blocks (address : string) (newest_first : list Block)
    (st : list Transaction * gmap string (list Z)) : list Transaction :=
  match newest_first with
  | [] => fst st
  | b :: older =>
      if (length (Transactions b) =? 0)%nat then fst st
      else scan_blocks address older (fold_left (scan_tx address) (Transactions b) st)
  end.

Definition FindUnspentTransactions (bc : Blockchain) (address : string)
    : list Transaction :=
  scan_blocks address (rev (blocks bc)) ([], ∅).

Definition FindUTXO (bc : Blockchain) (address : string) : list TXOutput :=
  flat_map (fun tx => filter (fun out => CanBeUnlockedWith out address = true) (Vout tx))
           (FindUnspentTransactions bc address).

(** The balance loop of [handleGetBalance]. *)
Definition handleGetBalance (bc : Blockchain) (address : string) : Z :=
  fold_left (fun balance out => add_int balance (Value out)) (FindUTXO bc address) 0%Z.

(** A loop that may [return] from inside its body. *)
Inductive loop (S : Type) : Type :=
  | Continue (s : S)
  | Return (s : S).
Arguments Continue {S} s.
Arguments Return {S} s.

(** The inner loop of [FindSpendableOutputs] over [tx.Vout]. *)
Fixpoint spend_outputs (address : string) (amount : Z) (txid : string)
    (idx : Z) (outs : list TXOutput) (st : Z * gmap string (list Z))
    : loop (Z * gmap string (list Z)) :=
  match outs with
  | [] => Continue st
  | out :: rest =>
      let '(accumulated, unspentOutputs) := st in
      if CanBeUnlockedWith out address && (accumulated <? amount)%Z then
        let accumulated := add_int accumulated (Value out) in
        let unspentOutputs := push_int unspentOutputs txid idx in
        if (accumulated >=? amount)%Z then Return (accumulated, unspentOutputs)
        else spend_outputs address amount txid (idx + 1) rest (accumulated, unspentOutputs)
      else spend_outputs address amount txid (idx + 1) rest st
  end.

(** The outer loop of [FindSpendableOutputs] over [unspentTXs]. *)
Fixpoint spend_txs (address : string) (amount : Z) (unspentTXs : list Transaction)
    (st : Z * gmap string (list Z)) : Z * gmap string (list Z) :=
  match unspentTXs with
  | [] => st
  | tx :: rest =>
      match spend_outputs address amount (ID tx) 0 (Vout tx) st with
      | Return r => r
      | Continue st' => spend_txs address amount rest st'
      end
  end.

Definition FindSpendableOutputs (bc : Blockchain) (address : string) (amount : Z)
    : Z * gmap string (list Z) :=
  spend_txs address amount (FindUnspentTransactions bc address) (0%Z, ∅).

(** ** transactions/transaction.go: the constructors *)

(** The bytes [encoding/gob] writes for a transaction. *)
Class GobEncoder := gob_Encode : Transaction -> string.

(** What a function with an [error] result returns. *)
Inductive result (A : Type) : Type :=
  | Ok (a : A)
  | Err (e : string).
Arguments Ok {A} a.
Arguments Err {A} e.

(** The order in which [range] yields the entries of a map: the runtime
    chooses it, and yields every entry once. *)
Record range_order : Type := mkRange {
  range_of :> gmap string (list Z) -> list (string * list Z);
  range_of_perm : ∀ m, range_of m ≡ₚ map_to_list m
}.

(** The two nested loops of [NewUTXOTransaction] that build the inputs. *)
Definition make_inputs (from : string) (kvs : list (string * list Z)) : list TXInput :=
  flat_map (fun kv => map (fun out => mkTXInput (fst kv) out from) (snd kv)) kvs.

Section Constructors.
Context `{GobEncoder}.

Definition SetID (tx : Transaction) : Transaction :=
  let hash := Sum256 (gob_Encode tx) in
  mkTransaction (EncodeToString hash) (Vin tx) (Vout tx).

Definition NewCoinbaseTX (to data : string) : Transaction :=
  let data := if String.eqb data "" then "Reward to '" +:+ to +:+ "'" else data in
  let txin := mkTXInput "" (-1) data in
  let txout := mkTXOutput subsidy to in
  SetID (mkTransaction "" [txin] [txout]).

Definition NewUTXOTransaction (range : range_order) (from to : string)
    (amount : Z) (bc : Blockchain) : result Transaction :=
  let '(acc, validOutputs) := FindSpendableOutputs bc from amount in
  if (acc <? amount)%Z then Err "ERROR: Not enough funds"
  else
    let inputs := make_inputs from (range validOutputs) in
    let outputs := [mkTXOutput amount to] in
    let outputs :=
      if (acc >? amount)%Z then outputs ++ [mkTXOutput (sub_int acc amount) from]
      else outputs in
    Ok (SetID (mkTransaction "" inputs outputs)).

(** ** main.go: genesis, sealing and the write path *)

Definition NewGenesisBlock (now : string) : Block :=
  let genesisBlock := zero_Block in
  mkBlock now [NewCoinbaseTX "Ivan" genesisCoinbaseData]
          (calculateHash genesisBlock) "" "".

Definition NewBlockchain (now : string) : Blockchain :=
  mkBlockchain [NewGenesisBlock now].

(** The loop [for i := 0; ; i++] of [generateBlock]; [None] when it is still
    running after [fuel] iterations. *)
Fixpoint proof_of_work (fuel : nat) (i : Z) (newBlock : Block) : option Block :=
  match fuel with
  | O => None
  | S f =>
      let newBlock := set_Nonce newBlock (Sprintf_x i) in
      let newHash := calculateHash newBlock in
      if negb (isHashValid newHash difficulty)
      then proof_of_work f (add_int i 1) newBlock
      else Some (set_Hash newBlock newHash)
  end.

(** [bc] is the global ledger, [now] what [time.Now().String()] gives. *)
Definition generateBlock (fuel : nat) (now : string) (range : range_order)
    (bc : Blockchain) (oldBlock : Block) (m : SendMessage)
    : option (result Block) :=
  match NewUTXOTransaction range (From m) (To m) (MsgValue m) bc with
  | Err e => Some (Err e)
  | Ok newTranaction =>
      let newBlock := mkBlock now [newTranaction] "" (Hash oldBlock) "" in
      match proof_of_work fuel 0 newBlock with
      | Some sealed => Some (Ok sealed)
      | None => None
      end
  end.

(** What [handleWriteBlock] answers once the payload is decoded. *)
Inductive response : Type :=
  | Created (newBlock : Block)          (* 201 with the block *)
  | InternalServerError (body : string) (* 500 with the error text *)
  | IndexPanic.                         (* [bc.blocks[-1]] on an empty chain *)

Definition handleWriteBlock (fuel : nat) (now : string) (range : range_order)
    (m : SendMessage) (bc : Blockchain) : option (Blockchain * response) :=
  match last (blocks bc) with
  | None => Some (bc, IndexPanic)
  | Some tail =>
      match generateBlock fuel now range bc tail m with
      | None => None
      | Some (Err e) => Some (bc, InternalServerError e)
      | Some (Ok newBlock) =>
          if isBlockValid newBlock tail
          then Some (AddBlock bc newBlock, Created newBlock)
          else Some (bc, Created newBlock)
      end
  end.

(** The ledgers the program can hold: the initial one, and what a served
    write request leaves. *)
Inductive reachable : Blockchain -> Prop :=
  | reach_init (now : string) : reachable (NewBlockchain now)
  | reach_write (bc bc' : Blockchain) (fuel : nat) (now : string)
      (range : range_order) (m : SendMessage) (resp : response) :
      reachable bc ->
      handleWriteBlock fuel now range m bc = Some (bc', resp) ->
      reachable bc'.
End Constructors.

(** The hash the loop computes when it tries nonce [i] on [b]. *)
Definition try_nonce (b : Block) (i : Z) : string :=
  calculateHash (set_Nonce b (Sprintf_x i)).


(** Every block after the first is linked to its predecessor and stores the
    hash of its own fields. *)
Definition linked (l : list Block) : Prop :=
  forall i b p, l !! S i = Some b -> l !! i = Some p ->
    PrevHash b = Hash p /\ calculateHash b = Hash b.

(** A block as the sealing loop leaves it: one transaction, and a hash that
    passes the leading-zero test. *)
Definition mined (b : Block) : Prop :=
  length (Transactions b) = 1%nat /\ isHashValid (Hash b) difficulty = true.

(** How many inputs of [l] spend output [idx] of transaction [txid]. *)
Definition inputs_spending (l : list TXInput) (txid : string) (idx : Z) : nat :=
  length (filter (fun i => Txid i = txid /\ VoutIdx i = idx) l).

(** How many times output [idx] of [txid] stands in a selection. *)
Definition times_selected (sel : gmap string (list Z)) (txid : string) (idx : Z) : nat :=
  length (filter (fun out => out = idx) (ints_at sel txid)).

(** The state a loop ends in, whichever way it ends. *)
Definition loop_state {S : Type} (l : loop S) : S :=
  match l with Continue s => s | Return s => s end.

(** ** Requests served at the same time

    [handleWriteBlock] reads the last block to generate from, reads it again
    for the check, and appends under the lock; another request can run
    between any two of these. *)

(** Where a request is: its block is generated, or has passed the check. *)
Inductive phase : Type :=
  | Generated (newBlock : Block)
  | Checked (newBlock : Block).

Record server := mkServer { ledger : Blockchain; in_flight : list phase }.

Section Interleaving.
Context `{GobEncoder}.

Inductive interleaved_step : server -> server -> Prop :=
  | step_generate s fuel now range m tail newBlock :
      last (blocks (ledger s)) = Some tail ->
      generateBlock fuel now range (ledger s) tail m = Some (Ok newBlock) ->
      interleaved_step s (mkServer (ledger s) (Generated newBlock :: in_flight s))
  | step_check s pre post newBlock tail :
      in_flight s = pre ++ Generated newBlock :: post ->
      last (blocks (ledger s)) = Some tail ->
      interleaved_step s
        (mkServer (ledger s)
           (if isBlockValid newBlock tail
            then pre ++ Checked newBlock :: post else pre ++ post))
  | step_append s pre post newBlock :
      in_flight s = pre ++ Checked newBlock :: post ->
      interleaved_step s (mkServer (AddBlock (ledger s) newBlock) (pre ++ post)).

Inductive interleaved_reachable : server -> Prop :=
  | ireach_init now : interleaved_reachable (mkServer (NewBlockchain now) [])
  | ireach_step s s' :
      interleaved_reachable s -> interleaved_step s s' -> interleaved_reachable s'.
End Interleaving.

(** ** The specification side of the balance query *)

(** The blocks the scan visits, newest first: it stops at the first block
    that holds no transaction. *)
Fixpoint scanned (newest_first : list Block) : list Block :=
  match newest_first with
  | [] => []
  | b :: older =>
      if (length (Transactions b) =? 0)%nat then [] else b :: scanned older
  end.

Definition scanned_transactions (bc : Blockchain) : list Transaction :=
  flat_map Transactions (scanned (rev (blocks bc))).

(** Some input unlockable by [address] refers to output [idx] of [txid]. *)
Definition referenced (address : string) (txs : list Transaction)
    (txid : string) (idx : Z) : bool :=
  existsb (fun tx =>
    existsb (fun i => CanUnlockOutputWith i address
                      && String.eqb (Txid i) txid && (VoutIdx i =? idx)%Z)
            (Vin tx)) txs.

(** The outputs of [tx] from index [idx] on that are locked to [address] and
    that no such input refers to. *)
Fixpoint unspent_of (address : string) (txs : list Transaction) (txid : string)
    (idx : Z) (outs : list TXOutput) : list TXOutput :=
  match outs with
  | [] => []
  | out :: rest =>
      if CanBeUnlockedWith out address && negb (referenced address txs txid idx)
      then out :: unspent_of address txs txid (idx + 1) rest
      else unspent_of address txs txid (idx + 1) rest
  end.

(** The unspent-and-relevant outputs of the ledger for [address], each once. *)
Definition unspent_relevant_outputs (bc : Blockchain) (address : string)
    : list TXOutput :=
  let txs := scanned_transactions bc in
  flat_map (fun tx => unspent_of address txs (ID tx) 0 (Vout tx)) txs.

Definition unspent_relevant_sum (bc : Blockchain) (address : string) : Z :=
  fold_left (fun s out => add_int s (Value out)) (unspent_relevant_outputs bc address) 0%Z.

(** ** A run of the program *)

(** A serialisation standing in for [encoding/gob] when a run is computed:
    it writes every field of the transaction. *)
Definition demo_gob : GobEncoder := fun tx =>
  ID tx +:+ "|" +:+
  fold_right (fun i r => Txid i +:+ ":" +:+ Sprintf_x (VoutIdx i) +:+ ":"
                         +:+ ScriptSig i +:+ ";" +:+ r) "" (Vin tx)
  +:+ "|" +:+
  fold_right (fun o r => Sprintf_x (Value o) +:+ ":" +:+ ScriptPubKey o
                         +:+ ";" +:+ r) "" (Vout tx).

(** The runtime walks the map in the order of [map_to_list]. *)
Definition demo_range : range_order :=
  mkRange map_to_list (fun m => Permutation_refl (map_to_list m)).

Definition now0 : string := "2018-03-01 10:00:00.000000000 +0000 UTC m=+0.001000000".
Definition now_self : string := "2018-03-01 10:05:54.597714383 +0000 UTC m=+354.142995371".
Definition now_bob : string := "2018-03-01 10:05:32.976787301 +0000 UTC m=+332.230530419".
Definition now_minus : string := "2018-03-01 10:05:04.449008934 +0000 UTC m=+304.258409929".
Definition now_spent : string := "2018-03-01 10:09:28.499987952 +0000 UTC m=+568.545290415".

(** The ledger at start-up. *)
Definition ledger0 : Blockchain := @NewBlockchain demo_gob now0.

(** The state a write request leaves, the ledger itself when the request is
    still mining after [fuel] iterations. *)
Definition after_write (fuel : nat) (now : string) (m : SendMessage)
    (bc : Blockchain) : Blockchain :=
  match @handleWriteBlock demo_gob fuel now demo_range m bc with
  | Some (bc', _) => bc'
  | None => bc
  end.

(** Ivan pays 3 to himself. *)
Definition ledger_self : Blockchain :=
  Eval vm_compute in after_write 8 now_self (mkSendMessage "Ivan" "Ivan" 3) ledger0.

(** Ivan pays 3 to Bob. *)
Definition ledger_bob : Blockchain :=
  Eval vm_compute in after_write 8 now_bob (mkSendMessage "Ivan" "Bob" 3) ledger0.

(** The last block of a ledger ([bc.blocks[len(bc.blocks)-1]]). *)
Definition tail_of (bc : Blockchain) : Block := default zero_Block (last (blocks bc)).

Definition genesis0 : Block := Eval vm_compute in tail_of ledger0.
Definition block_self : Block := Eval vm_compute in tail_of ledger_self.
Definition block_bob : Block := Eval vm_compute in tail_of ledger_bob.


(** What Ivan's payment of 3 to Bob selects, and the transaction it builds. *)
Definition sel_bob : gmap string (list Z) :=
  snd (FindSpendableOutputs ledger0 "Ivan" 3).
Definition tx_bob : Transaction :=
  Eval vm_compute in default (mkTransaction "" [] []) (head (Transactions block_bob)).

(** Bob, who holds nothing, asks to pay -5 to Eve. *)
Definition ledger_minus : Blockchain :=
  Eval vm_compute in after_write 8 now_minus (mkSendMessage "Bob" "Eve" (-5)) ledger0.
Definition block_minus : Block := Eval vm_compute in tail_of ledger_minus.

(** After paying 3 to himself, Ivan pays 2 to Bob. *)
Definition ledger_spent : Blockchain :=
  Eval vm_compute in after_write 8 now_spent (mkSendMessage "Ivan" "Bob" 2) ledger_self.
Definition block_spent : Block := Eval vm_compute in tail_of ledger_spent.

(** ** Further notions the properties use *)

(** A character of lower-case base 16. *)
Definition is_hex (c : ascii) : Prop := In c (list_ascii_of_string "0123456789abcdef").

(** The block of Ivan's payment to Bob with the outputs of its transaction
    replaced; the transaction keeps its [ID]. *)
Definition forged_bob : Block :=
  mkBlock (Timestamp block_bob)
          (map (fun tx => mkTransaction (ID tx) (Vin tx) [mkTXOutput 1000 "Eve"])
               (Transactions block_bob))
          (Hash block_bob) (PrevHash block_bob) (Nonce block_bob).

(** Every selected pair names an output, of a transaction of [L], that is
    locked to [address]. *)
Definition selects_from (address : string) (L : list Transaction)
    (sel : gmap string (list Z)) : Prop :=
  forall k idx, idx ∈ ints_at sel k ->
    exists tx out,
      tx ∈ L /\ ID tx = k /\ (0 <= idx)%Z
      /\ Vout tx !! Z.to_nat idx = Some out /\ ScriptPubKey out = address.

(** The output indices of transaction [txid] that the inputs of [tx] mark as
    spent for [address]: none when [tx] is a coinbase. *)
Definition marks_of (address txid : string) (tx : Transaction) : list Z :=
  if IsCoinbase tx then []
  else flat_map (fun i => if CanUnlockOutputWith i address && String.eqb (Txid i) txid
                          then [VoutIdx i] else [])
                (Vin tx).

(** The same of a sequence of transactions, in their order. *)
Definition marks (address txid : string) (seen : list Transaction) : list Z :=
  flat_map (marks_of address txid) seen.

(** The outputs of [outs], numbered from [n], that are locked to [address]
    and whose number is not in [spent]. *)
Definition open_outputs (address : string) (spent : list Z) (n : nat)
    (outs : list TXOutput) : list (nat * TXOutput) :=
  filter (fun p => (Z.of_nat (fst p) ∉ spent) /\ ScriptPubKey (snd p) = address)
         (imap (fun i out => ((n + i)%nat, out)) outs).

(** The listing of unspent transactions, by the transactions in the order
    of the scan: [seen] are those scanned before [txs]. *)
Fixpoint unspent_listing (address : string) (seen txs : list Transaction)
    : list Transaction :=
  match txs with
  | [] => []
  | tx :: rest =>
      replicate (length (open_outputs address (marks address (ID tx) (seen ++ [tx]))
                                      0 (Vout tx))) tx
      ++ unspent_listing address (seen ++ [tx]) rest
  end.

(** The spent set holds, for every transaction id, the marks of the
    transactions scanned so far. *)
Definition spent_is (address : string) (seen : list Transaction)
    (spentTXOs : gmap string (list Z)) : Prop :=
  forall k, ints_at spentTXOs k = marks address k seen.

(** The value gathered from [outs], in their order, until it reaches
    [amount]. *)
Fixpoint accumulate (amount : Z) (outs : list TXOutput) (acc : Z) : Z :=
  match outs with
  | [] => acc
  | out :: rest =>
      if (acc <? amount)%Z then accumulate amount rest (add_int acc (Value out))
      else acc
  end.

(** The sum of the values of [outs], as a number. *)
Definition total_value (outs : list TXOutput) : Z :=
  fold_right (fun out s => (Value out + s)%Z) 0%Z outs.

(** ** The earlier program: blocks that carry a number

    The repository's second main program has no transactions: a block
    carries the integer of the request, the hash covers it through
    [strconv.Itoa], the difficulty is 6 and a write request cannot fail.
    [isHashValid], [Sum256], [hex.EncodeToString] and [fmt.Sprintf] are the
    ones above. *)

(** The base-10 digits of a non-negative number, most significant first. *)
Fixpoint dec_digits (fuel : nat) (n : Z) (acc : string) : string :=
  match fuel with
  | O => acc
  | S f =>
      let acc' := String (ascii_of_byte (48 + n mod 10)) acc in
      if (n / 10 =? 0)%Z then acc' else dec_digits f (n / 10) acc'
  end.

(** [strconv.Itoa] of an [int] (at most 19 digits). *)
Definition Itoa (i : Z) : string :=
  if (i <? 0)%Z then String "-"%char (dec_digits 19 (- i) EmptyString)
  else dec_digits 19 i EmptyString.

Module ValueChain.

Definition difficulty : nat := 6.

Record Block := mkBlock {
  Timestamp : string;
  Value : Z;
  Hash : string;
  PrevHash : string;
  Nonce : string
}.

Record Blockchain := mkBlockchain { blocks : list Block }.

Definition zero_Block : Block := mkBlock "" 0 "" "" "".

Definition set_Nonce (b : Block) (n : string) : Block :=
  mkBlock (Timestamp b) (Value b) (Hash b) (PrevHash b) n.
Definition set_Hash (b : Block) (h : string) : Block :=
  mkBlock (Timestamp b) (Value b) h (PrevHash b) (Nonce b).

Definition calculateHash (block : Block) : string :=
  let record :=
    Timestamp block +:+ Itoa (Value block) +:+ PrevHash block +:+ Nonce block in
  EncodeToString (Sum256 record).

Definition isBlockValid (newBlock oldBlock : Block) : bool :=
  if negb (String.eqb (Hash oldBlock) (PrevHash newBlock)) then false
  else if negb (String.eqb (calculateHash newBlock) (Hash newBlock)) then false
  else true.

Definition NewGenesisBlock (now : string) : Block :=
  let genesisBlock := zero_Block in
  mkBlock now 0 (calculateHash genesisBlock) "" "".

Definition AddBlock (bc : Blockchain) (newBlock : Block) : Blockchain :=
  mkBlockchain (blocks bc ++ [newBlock]).

Definition NewBlockchain (now : string) : Blockchain :=
  mkBlockchain [NewGenesisBlock now].

(** The loop [for i := 0; ; i++] of [generateBlock]; [None] when it is still
    running after [fuel] iterations. *)
Fixpoint proof_of_work (fuel : nat) (i : Z) (newBlock : Block) : option Block :=
  match fuel with
  | O => None
  | S f =>
      let newBlock := set_Nonce newBlock (Sprintf_x i) in
      let newHash := calculateHash newBlock in
      if negb (isHashValid newHash difficulty)
      then proof_of_work f (add_int i 1) newBlock
      else Some (set_Hash newBlock newHash)
  end.

Definition generateBlock (fuel : nat) (now : string) (oldBlock : Block) (value : Z)
    : option Block :=
  proof_of_work fuel 0 (mkBlock now value "" (Hash oldBlock) "").

(** What [handleWriteBlock] answers once the payload is decoded. *)
Inductive response : Type :=
  | Created (newBlock : Block)   (* 201 with the block *)
  | IndexPanic.                  (* [bc.blocks[-1]] on an empty chain *)

(** [m] is the [Value] of the decoded [Message]. *)
Definition handleWriteBlock (fuel : nat) (now : string) (m : Z) (bc : Blockchain)
    : option (Blockchain * response) :=
  match last (blocks bc) with
  | None => Some (bc, IndexPanic)
  | Some tail =>
      match generateBlock fuel now tail m with
      | None => None
      | Some newBlock =>
          if isBlockValid newBlock tail
          then Some (AddBlock bc newBlock, Created newBlock)
          else Some (bc, Created newBlock)
      end
  end.

Inductive reachable : Blockchain -> Prop :=
  | reach_init (now : string) : reachable (NewBlockchain now)
  | reach_write (bc bc' : Blockchain) (fuel : nat) (now : string) (m : Z)
      (resp : response) :
      reachable bc ->
      handleWriteBlock fuel now m bc = Some (bc', resp) ->
      reachable bc'.

(** A run: the ledger at start-up, and a request that carries 89. *)
Definition now_genesis : string := "2018-02-20 09:55:00.000000000 +0000 UTC m=+0.001000000".
Definition now_write : string := "2018-02-20 09:55:57.292988918 +0000 UTC m=+4131.123880473".
Definition chain0 : Blockchain := NewBlockchain now_genesis.
Definition chain1 : Blockchain :=
  Eval vm_compute in
    match handleWriteBlock 4 now_write 89 chain0 with
    | Some (bc', _) => bc'
    | None => chain0
    end.
Definition first_block : Block :=
  Eval vm_compute in default zero_Block (last (blocks chain0)).
Definition second_block : Block :=
  Eval vm_compute in default zero_Block (last (blocks chain1)).

End ValueChain.

(** The transaction of Ivan's payment to himself. *)
Definition tx_self : Transaction :=
  Eval vm_compute in default (mkTransaction "" [] []) (head (Transactions block_self)).

(** ** What a chain keeps when requests are served at the same time *)




(** * Properties *)

(** ** The models of the libraries agree with their test vectors *)

Example Sum256_empty :
  EncodeToString (Sum256 "")
  = "e3b0c44298fc1c149afbf4c8996fb92427ae41e4649b934ca495991b7852b855".
Proof. vm_compute. reflexivity. Qed.

Example Sum256_abc :
  EncodeToString (Sum256 "abc")
  = "ba7816bf8f01cfea414140de5dae2223b00361a396177a9cb410ff61f20015ad".
Proof. vm_compute. reflexivity. Qed.

(** A message of 119 bytes fills two blocks to the last byte of padding. *)
Example Sum256_two_blocks :
  EncodeToString (Sum256 (string_of_bytes (repeat 97%Z 119)))
  = "31eba51c313a5c08226adf18d4a359cfdfd8d2e816b13f4af952f7ea6584dcfb".
Proof. vm_compute. reflexivity. Qed.

Example Sprintf_x_samples :
  (Sprintf_x 0, Sprintf_x 23, Sprintf_x 255, Sprintf_x 4096, Sprintf_x (-255))
  = ("0", "17", "ff", "1000", "-ff").
Proof. vm_compute. reflexivity. Qed.

(** The run the examples below use: the genesis block, Ivan's payment of 3
    to himself, then his payment of 2 to Bob; for each block its nonce, its
    hash and the hash of its predecessor. *)
Example the_run :
  map (fun b => (Nonce b, Hash b, PrevHash b)) (blocks ledger_spent)
  = [("", "5df6e0e2761359d30a8275058e299fcc0381534545f55cf43e41983f5d4c9456", "");
     ("2", "09b30efcf534141b294949a2cb36141d3a310eeb33ab002b86890170f374b06e",
           "5df6e0e2761359d30a8275058e299fcc0381534545f55cf43e41983f5d4c9456");
     ("1", "039da64189fad37354111dd284b58ed3cdd2c8a9d63252ee4ffd103be7611a15",
           "09b30efcf534141b294949a2cb36141d3a310eeb33ab002b86890170f374b06e")]
  /\ blocks ledger_self = [genesis0; block_self]
  /\ blocks ledger_spent = [genesis0; block_self; block_spent]
  /\ blocks ledger_bob = [genesis0; block_bob]
  /\ ledger0 = mkBlockchain [genesis0].
Proof.
  split; [vm_compute; reflexivity |].
  split; [reflexivity |]. split; [reflexivity |]. split; [reflexivity |].
  vm_compute. reflexivity.
Qed.

(** ** Go's [int] *)

Lemma wrap_int_is_int z : is_int (wrap_int z).
Proof.
  unfold is_int, wrap_int.
  pose proof (Z.mod_pos_bound (z + 2 ^ 63) (2 ^ 64) ltac:(lia)). lia.
Qed.

Lemma wrap_int_id z : is_int z -> wrap_int z = z.
Proof.
  unfold is_int, wrap_int. intros Hz.
  rewrite Z.mod_small by lia. lia.
Qed.

(** ** Hashing and validity *)

Lemma calculateHash_set_Hash b h : calculateHash (set_Hash b h) = calculateHash b.
Proof. reflexivity. Qed.

Lemma set_Nonce_set_Nonce b n n' : set_Nonce (set_Nonce b n) n' = set_Nonce b n'.
Proof. reflexivity. Qed.

Lemma isBlockValid_true newBlock oldBlock :
  isBlockValid newBlock oldBlock = true
  <-> Hash oldBlock = PrevHash newBlock /\ calculateHash newBlock = Hash newBlock.
Proof.
  unfold isBlockValid.
  destruct (String.eqb_spec (Hash oldBlock) (PrevHash newBlock)) as [E1 | E1];
    destruct (String.eqb_spec (calculateHash newBlock) (Hash newBlock)) as [E2 | E2];
    cbn; intuition congruence.
Qed.

(** C2: [isBlockValid] holds exactly when the predecessor's hash is the
    candidate's [PrevHash] and the candidate's hash recomputes to its stored
    [Hash]; so a block whose [Nonce] was altered in a way that changes its
    recomputed hash is refused against any predecessor. *)
Theorem isBlockValid_iff_linked_and_recomputes (newBlock oldBlock : Block) :
  (isBlockValid newBlock oldBlock = true
   <-> Hash oldBlock = PrevHash newBlock /\ calculateHash newBlock = Hash newBlock)
  /\ (forall nonce' : string,
        calculateHash (set_Nonce newBlock nonce') <> Hash newBlock ->
        isBlockValid (set_Nonce newBlock nonce') oldBlock = false).
Proof.
  split; [apply isBlockValid_true |].
  intros nonce' Hne.
  destruct (isBlockValid (set_Nonce newBlock nonce') oldBlock) eqn:E; [| reflexivity].
  apply isBlockValid_true in E as [_ E]. cbn in E. contradiction.
Qed.

(** ** The proof-of-work seal *)

Lemma isHashValid_leading_zeros (d : nat) (hash : string) :
  isHashValid hash d = true
  <-> forall k, (k < d)%nat -> String.get k hash = Some "0"%char.
Proof.
  unfold isHashValid, HasPrefix.
  revert hash. induction d as [| d IH]; intros hash.
  - split; [intros _ k Hk; lia | intros _; destruct hash; reflexivity].
  - change (Repeat "0" (S d)) with (String "0"%char (Repeat "0" d)).
    destruct hash as [| c hash]; cbn [String.prefix].
    + split; [discriminate |]. intros Hz. specialize (Hz O ltac:(lia)). discriminate.
    + destruct (ascii_dec "0" c) as [<- | Hc].
      * rewrite IH. split.
        -- intros Hz [| k] Hk; [reflexivity |]. cbn. apply Hz. lia.
        -- intros Hz k Hk. apply (Hz (S k)). lia.
      * split; [discriminate |]. intros Hz. specialize (Hz O ltac:(lia)).
        cbn in Hz. congruence.
Qed.

Lemma add_int_succ i : (0 <= i < 2 ^ 63 - 1)%Z -> add_int i 1 = (i + 1)%Z.
Proof. intros Hi. apply wrap_int_id. unfold is_int. lia. Qed.

(** What a run of the loop from counter [i] gives, while the counter stays
    in the range of an [int]. *)
Lemma proof_of_work_from (fuel : nat) :
  forall (i : Z) (b sealed : Block),
    (0 <= i)%Z -> (i + Z.of_nat fuel <= 2 ^ 63)%Z ->
    proof_of_work fuel i b = Some sealed ->
    exists k : nat,
      (k < fuel)%nat
      /\ sealed = set_Hash (set_Nonce b (Sprintf_x (i + Z.of_nat k)))
                           (try_nonce b (i + Z.of_nat k))
      /\ isHashValid (try_nonce b (i + Z.of_nat k)) difficulty = true
      /\ forall j : nat, (j < k)%nat ->
           isHashValid (try_nonce b (i + Z.of_nat j)) difficulty = false.
Proof.
  induction fuel as [| fuel IH]; intros i b sealed Hi Hfuel Hrun; [discriminate |].
  cbn [proof_of_work] in Hrun.
  change (calculateHash (set_Nonce b (Sprintf_x i))) with (try_nonce b i) in Hrun.
  destruct (isHashValid (try_nonce b i) difficulty) eqn:Hv; cbn [negb] in Hrun.
  - injection Hrun as <-. exists O. rewrite Z.add_0_r.
    repeat split; [lia | assumption | intros j Hj; lia].
  - destruct fuel as [| fuel']; [discriminate |].
    rewrite add_int_succ in Hrun by lia.
    apply IH in Hrun as (k & Hk & -> & Hvalid & Hleast); [| lia | lia].
    exists (S k).
    replace (i + Z.of_nat (S k))%Z with (i + 1 + Z.of_nat k)%Z by lia.
    repeat split; [lia | assumption |].
    intros [| j] Hj.
    + rewrite Z.add_0_r. exact Hv.
    + replace (i + Z.of_nat (S j))%Z with (i + 1 + Z.of_nat j)%Z by lia.
      apply Hleast. lia.
Qed.

(** X6: The loop returns as soon as some nonce within the fuel is good. *)
Lemma proof_of_work_finds (fuel : nat) :
  forall (i : Z) (b : Block) (k : nat),
    (0 <= i)%Z -> (i + Z.of_nat fuel <= 2 ^ 63)%Z -> (k < fuel)%nat ->
    isHashValid (try_nonce b (i + Z.of_nat k)) difficulty = true ->
    exists sealed, proof_of_work fuel i b = Some sealed.
Proof.
  induction fuel as [| fuel IH]; intros i b k Hi Hfuel Hk Hv; [lia |].
  cbn [proof_of_work].
  change (calculateHash (set_Nonce b (Sprintf_x i))) with (try_nonce b i).
  destruct (isHashValid (try_nonce b i) difficulty) eqn:Hv0; cbn [negb]; [eauto |].
  destruct k as [| k].
  - rewrite Z.add_0_r in Hv. congruence.
  - destruct fuel as [| fuel']; [lia |].
    rewrite add_int_succ by lia.
    apply (IH (i + 1)%Z (set_Nonce b (Sprintf_x i)) k); [lia | lia | lia |].
    replace (i + 1 + Z.of_nat k)%Z with (i + Z.of_nat (S k))%Z by lia. exact Hv.
Qed.

Section Sealing.
Context `{GobEncoder}.

(** C3: a block returned by the proof-of-work loop of [generateBlock]
    stores the hash of its own fields, that hash starts with [difficulty]
    characters 0, and its nonce is the base-16 text of the least natural
    number whose hash passes the leading-zero test (the loop counter is an
    [int]: the run is one of at most 2^63 iterations). *)
Theorem generateBlock_seals_with_least_nonce
    (fuel : nat) (now : string) (range : range_order) (bc : Blockchain)
    (oldBlock : Block) (m : SendMessage) (sealed : Block) :
  (Z.of_nat fuel <= 2 ^ 63)%Z ->
  generateBlock fuel now range bc oldBlock m = Some (Ok sealed) ->
  Hash sealed = calculateHash sealed
  /\ (forall k, (k < difficulty)%nat -> String.get k (Hash sealed) = Some "0"%char)
  /\ exists i : nat,
       Nonce sealed = Sprintf_x (Z.of_nat i)
       /\ isHashValid (try_nonce sealed (Z.of_nat i)) difficulty = true
       /\ forall j : nat,
            isHashValid (try_nonce sealed (Z.of_nat j)) difficulty = true ->
            (i <= j)%nat.
Proof.
  intros Hfuel Hgen. unfold generateBlock in Hgen.
  destruct (NewUTXOTransaction range (From m) (To m) (MsgValue m) bc)
    as [tx | e]; [| discriminate].
  destruct (proof_of_work fuel 0 _) as [b |] eqn:Hpow; [| discriminate].
  injection Hgen as ->.
  apply proof_of_work_from in Hpow as (k & Hk & -> & Hvalid & Hleast); [| lia | lia].
  rewrite Z.add_0_l in *.
  split; [reflexivity |]. split.
  - apply isHashValid_leading_zeros. exact Hvalid.
  - exists k. split; [reflexivity |]. split; [exact Hvalid |].
    intros j Hj. destruct (le_lt_dec k j) as [Hle | Hlt]; [exact Hle |].
    specialize (Hleast j Hlt). rewrite Z.add_0_l in Hleast.
    change (try_nonce (set_Hash (set_Nonce ?b ?n) ?h) ?z) with (try_nonce b z) in Hj.
    congruence.
Qed.
End Sealing.

Lemma generateBlock_seals_with_least_nonce_witness :
  Hash block_self = calculateHash block_self
  /\ (forall k, (k < difficulty)%nat -> String.get k (Hash block_self) = Some "0"%char)
  /\ exists i : nat,
       Nonce block_self = Sprintf_x (Z.of_nat i)
       /\ isHashValid (try_nonce block_self (Z.of_nat i)) difficulty = true
       /\ forall j : nat,
            isHashValid (try_nonce block_self (Z.of_nat j)) difficulty = true ->
            (i <= j)%nat.
Proof.
  apply (@generateBlock_seals_with_least_nonce demo_gob 8 now_self demo_range
           ledger0 genesis0 (mkSendMessage "Ivan" "Ivan" 3) block_self).
  - vm_compute. discriminate.
  - vm_compute. reflexivity.
Defined.

(** ** The write path *)

Lemma proof_of_work_shape (fuel : nat) :
  forall (i : Z) (b sealed : Block),
    proof_of_work fuel i b = Some sealed ->
    exists j : Z,
      sealed = set_Hash (set_Nonce b (Sprintf_x j)) (try_nonce b j)
      /\ isHashValid (try_nonce b j) difficulty = true.
Proof.
  induction fuel as [| fuel IH]; intros i b sealed Hrun; [discriminate |].
  cbn [proof_of_work] in Hrun.
  change (calculateHash (set_Nonce b (Sprintf_x i))) with (try_nonce b i) in Hrun.
  destruct (isHashValid (try_nonce b i) difficulty) eqn:Hv; cbn [negb] in Hrun.
  - injection Hrun as <-. exists i. split; [reflexivity | exact Hv].
  - apply IH in Hrun as (j & -> & Hj). exists j. split; [reflexivity | exact Hj].
Qed.

Section WritePath.
Context `{GobEncoder}.

(** X5: A block that [generateBlock] returns passes [isBlockValid] against the
    block it was generated from. *)
Lemma generateBlock_valid fuel now range bc oldBlock m newBlock :
  generateBlock fuel now range bc oldBlock m = Some (Ok newBlock) ->
  isBlockValid newBlock oldBlock = true.
Proof.
  unfold generateBlock.
  destruct (NewUTXOTransaction _ _ _ _ _) as [tx | e]; [| discriminate].
  destruct (proof_of_work fuel 0 _) as [b |] eqn:Hpow; [| discriminate].
  intros [= ->]. apply proof_of_work_shape in Hpow as (j & -> & _).
  apply isBlockValid_true. split; reflexivity.
Qed.




End WritePath.

Lemma ledger_self_reachable : @reachable demo_gob ledger_self.
Proof.
  apply (@reach_write demo_gob ledger0 ledger_self 8 now_self demo_range
           (mkSendMessage "Ivan" "Ivan" 3) (Created block_self)).
  - apply reach_init.
  - vm_compute. reflexivity.
Defined.

Section Append.
Context `{GobEncoder}.


(** C5: [NewUTXOTransaction] fails exactly when the value accumulated by
    [FindSpendableOutputs] is below the amount, and a write request whose
    transaction fails leaves the ledger as it was. *)
Theorem insufficient_funds_iff_and_ledger_unchanged :
  (forall range from to amount bc,
      (exists e, NewUTXOTransaction range from to amount bc = Err e)
      <-> (fst (FindSpendableOutputs bc from amount) < amount)%Z)
  /\ (forall fuel now range m bc e,
        NewUTXOTransaction range (From m) (To m) (MsgValue m) bc = Err e ->
        exists resp,
          handleWriteBlock fuel now range m bc = Some (bc, resp)
          /\ (blocks bc <> [] -> resp = InternalServerError e)).
Proof.
  split.
  - intros range from to amount bc. unfold NewUTXOTransaction.
    destruct (FindSpendableOutputs bc from amount) as [acc validOutputs]. cbn [fst].
    destruct (Z.ltb_spec acc amount) as [Hlt | Hge].
    + split; [intros _; exact Hlt | intros _; eauto].
    + split; [intros [e He]; discriminate | lia].
  - intros fuel now range m bc e Herr. unfold handleWriteBlock.
    destruct (last (blocks bc)) as [tail |] eqn:Htail.
    + unfold generateBlock. rewrite Herr. eauto.
    + exists IndexPanic. split; [reflexivity |].
      intros Hne. apply last_None in Htail. contradiction.
Qed.
End Append.



(** Scenario C: Ivan holds 10 and asks to pay 11. *)
Lemma insufficient_funds_iff_and_ledger_unchanged_witness :
  exists resp,
    handleWriteBlock (H := demo_gob) 8 now_bob demo_range
      (mkSendMessage "Ivan" "Bob" 11) ledger0 = Some (ledger0, resp)
    /\ (blocks ledger0 <> [] -> resp = InternalServerError "ERROR: Not enough funds").
Proof.
  apply (proj2 (@insufficient_funds_iff_and_ledger_unchanged demo_gob)
           8 now_bob demo_range (mkSendMessage "Ivan" "Bob" 11) ledger0).
  vm_compute. reflexivity.
Defined.

(** ** Selecting outputs and building a transfer *)

(** Once the accumulated value has reached the amount, the loops select
    nothing more. *)
Lemma spend_outputs_done address amount txid outs :
  forall idx acc sel,
    (amount <= acc)%Z ->
    spend_outputs address amount txid idx outs (acc, sel) = Continue (acc, sel).
Proof.
  induction outs as [| out rest IH]; intros idx acc sel Hge; [reflexivity |].
  cbn [spend_outputs].
  destruct (Z.ltb_spec acc amount) as [Hlt | _]; [lia |].
  rewrite andb_false_r. apply IH. exact Hge.
Qed.

Lemma spend_txs_done address amount txs :
  forall acc sel,
    (amount <= acc)%Z ->
    spend_txs address amount txs (acc, sel) = (acc, sel).
Proof.
  induction txs as [| tx rest IH]; intros acc sel Hge; [reflexivity |].
  cbn [spend_txs]. rewrite spend_outputs_done by exact Hge. apply IH. exact Hge.
Qed.

(** The accumulated value is an [int]. *)
Lemma spend_outputs_int address amount txid outs :
  forall idx st,
    is_int (fst st) ->
    is_int (fst (loop_state (spend_outputs address amount txid idx outs st))).
Proof.
  induction outs as [| out rest IH]; intros idx [acc sel] Hint; [exact Hint |].
  cbn [spend_outputs].
  destruct (CanBeUnlockedWith out address && (acc <? amount)%Z).
  - destruct (add_int acc (Value out) >=? amount)%Z.
    + apply wrap_int_is_int.
    + apply IH. apply wrap_int_is_int.
  - apply IH. exact Hint.
Qed.

Lemma spend_txs_int address amount txs :
  forall st, is_int (fst st) -> is_int (fst (spend_txs address amount txs st)).
Proof.
  induction txs as [| tx rest IH]; intros st Hint; [exact Hint |].
  cbn [spend_txs].
  pose proof (spend_outputs_int address amount (ID tx) (Vout tx) 0%Z st Hint) as Hout.
  destruct (spend_outputs address amount (ID tx) 0 (Vout tx) st) as [st' | r].
  - apply IH. exact Hout.
  - exact Hout.
Qed.

Lemma FindSpendableOutputs_int bc address amount :
  is_int (fst (FindSpendableOutputs bc address amount)).
Proof. apply spend_txs_int. cbn. unfold is_int. lia. Qed.

Lemma FindSpendableOutputs_nonpositive bc address amount :
  (amount <= 0)%Z -> FindSpendableOutputs bc address amount = (0%Z, ∅).
Proof. intros Hle. apply spend_txs_done. exact Hle. Qed.

Lemma range_of_empty (range : range_order) : range ∅ = [].
Proof.
  apply Permutation_nil. symmetry.
  rewrite (range_of_perm range ∅). rewrite map_to_list_empty. reflexivity.
Qed.

(** Counting the inputs that [make_inputs] builds. *)
Lemma inputs_spending_map from txid' outs txid idx :
  inputs_spending (map (fun out => mkTXInput txid' out from) outs) txid idx
  = if decide (txid' = txid) then length (filter (fun out => out = idx) outs) else 0%nat.
Proof.
  unfold inputs_spending.
  induction outs as [| out rest IH]; [destruct (decide _); reflexivity |].
  cbn [map]. rewrite !filter_cons. cbn [Txid VoutIdx].
  destruct (decide (txid' = txid)) as [-> | Hne].
  - destruct (decide (out = idx)) as [-> | Ho].
    + rewrite decide_True by auto. cbn. rewrite IH. reflexivity.
    + rewrite decide_False by tauto. exact IH.
  - rewrite decide_False by tauto. exact IH.
Qed.

Lemma inputs_spending_app l1 l2 txid idx :
  inputs_spending (l1 ++ l2) txid idx
  = (inputs_spending l1 txid idx + inputs_spending l2 txid idx)%nat.
Proof. unfold inputs_spending. rewrite filter_app, length_app. reflexivity. Qed.

Lemma inputs_spending_perm l1 l2 txid idx :
  l1 ≡ₚ l2 -> inputs_spending l1 txid idx = inputs_spending l2 txid idx.
Proof. intros Hp. unfold inputs_spending. rewrite Hp. reflexivity. Qed.

Lemma make_inputs_perm from kvs1 kvs2 :
  kvs1 ≡ₚ kvs2 -> make_inputs from kvs1 ≡ₚ make_inputs from kvs2.
Proof. intros Hp. unfold make_inputs. apply Permutation_flat_map. exact Hp. Qed.

Lemma inputs_spending_map_to_list from (sel : gmap string (list Z)) txid idx :
  inputs_spending (make_inputs from (map_to_list sel)) txid idx
  = times_selected sel txid idx.
Proof.
  induction sel as [| k outs sel Hfresh IH] using map_ind.
  - rewrite map_to_list_empty. reflexivity.
  - rewrite (inputs_spending_perm _ _ _ _
               (make_inputs_perm from _ _ (map_to_list_insert sel k outs Hfresh))).
    cbn [make_inputs flat_map fst snd]. fold (make_inputs from (map_to_list sel)).
    rewrite inputs_spending_app, inputs_spending_map, IH.
    unfold times_selected, ints_at.
    destruct (decide (k = txid)) as [-> | Hne].
    + rewrite lookup_insert_eq, Hfresh. cbn. lia.
    + rewrite lookup_insert_ne by exact Hne. reflexivity.
Qed.

Lemma make_inputs_ScriptSig from kvs :
  Forall (fun i => ScriptSig i = from) (make_inputs from kvs).
Proof.
  unfold make_inputs. apply Forall_forall. intros i Hi.
  apply list_elem_of_In in Hi. apply in_flat_map in Hi as (kv & _ & Hi).
  apply in_map_iff in Hi as (out & <- & _). reflexivity.
Qed.

Section Transfer.
Context `{GobEncoder}.

Lemma NewUTXOTransaction_Ok range from to amount bc acc sel tx :
  FindSpendableOutputs bc from amount = (acc, sel) ->
  NewUTXOTransaction range from to amount bc = Ok tx ->
  (amount <= acc)%Z
  /\ tx = SetID (mkTransaction "" (make_inputs from (range sel))
                  (mkTXOutput amount to
                   :: if (acc >? amount)%Z
                      then [mkTXOutput (sub_int acc amount) from] else [])).
Proof.
  intros Hsel. unfold NewUTXOTransaction. rewrite Hsel.
  destruct (Z.ltb_spec acc amount) as [Hlt | Hge]; [discriminate |].
  intros [= <-]. split; [exact Hge |].
  destruct (acc >? amount)%Z; reflexivity.
Qed.

(** X27: a transfer that [NewUTXOTransaction] returns has, in the order of
    the map iteration, one input for each entry of the selection that
    [FindSpendableOutputs] returns - an output that the selection lists k
    times gets k inputs - and every input is unlocked by [from]; its
    outputs are [amount] to [to], followed by the change [acc - amount] to
    [from] exactly when [acc] exceeds [amount]; and its [ID] is the
    fingerprint of the transaction so built. *)
Theorem NewUTXOTransaction_inputs_outputs_id
    (range : range_order) (from to : string) (amount : Z) (bc : Blockchain)
    (acc : Z) (sel : gmap string (list Z)) (tx : Transaction) :
  FindSpendableOutputs bc from amount = (acc, sel) ->
  NewUTXOTransaction range from to amount bc = Ok tx ->
  (amount <= acc)%Z
  /\ (forall txid idx,
        inputs_spending (Vin tx) txid idx = times_selected sel txid idx)
  /\ Vin tx ≡ₚ make_inputs from (map_to_list sel)
  /\ Forall (fun i => ScriptSig i = from) (Vin tx)
  /\ ((amount < acc)%Z ->
        Vout tx = [mkTXOutput amount to; mkTXOutput (sub_int acc amount) from])
  /\ (acc = amount -> Vout tx = [mkTXOutput amount to])
  /\ ((0 <= amount)%Z -> sub_int acc amount = (acc - amount)%Z)
  /\ ID tx = EncodeToString
               (Sum256 (gob_Encode (mkTransaction "" (Vin tx) (Vout tx)))).
Proof.
  intros Hsel Hok.
  destruct (NewUTXOTransaction_Ok _ _ _ _ _ _ _ _ Hsel Hok) as [Hge ->].
  cbn [SetID Vin Vout ID].
  assert (make_inputs from (range sel) ≡ₚ make_inputs from (map_to_list sel)) as Hperm.
  { apply make_inputs_perm, range_of_perm. }
  repeat apply conj.
  - exact Hge.
  - intros txid idx.
    rewrite (inputs_spending_perm _ _ _ _ Hperm).
    apply inputs_spending_map_to_list.
  - exact Hperm.
  - apply make_inputs_ScriptSig.
  - intros Hlt. destruct (Z.gtb_spec acc amount) as [_ | Hle]; [reflexivity | lia].
  - intros ->. rewrite Z.gtb_ltb, Z.ltb_irrefl. reflexivity.
  - intros Hpos. apply wrap_int_id.
    pose proof (FindSpendableOutputs_int bc from amount) as Hint.
    rewrite Hsel in Hint. cbn [fst] in Hint. unfold is_int in *. lia.
  - reflexivity.
Qed.

(** C10: for the amount 0 nothing is selected, and [NewUTXOTransaction]
    returns a transaction that is no coinbase, has no input, and has the
    single output of value 0 locked to the recipient. *)
Theorem zero_amount_transfer_succeeds
    (range : range_order) (from to : string) (bc : Blockchain) :
  FindSpendableOutputs bc from 0 = (0%Z, ∅)
  /\ exists tx,
       NewUTXOTransaction range from to 0 bc = Ok tx
       /\ IsCoinbase tx = false
       /\ Vin tx = []
       /\ Vout tx = [mkTXOutput 0 to].
Proof.
  pose proof (FindSpendableOutputs_nonpositive bc from 0%Z ltac:(lia)) as Hsel.
  split; [exact Hsel |].
  unfold NewUTXOTransaction. rewrite Hsel. cbn [Z.ltb Z.gtb Z.compare].
  rewrite range_of_empty. eexists. split; [reflexivity |].
  repeat split.
Qed.

(** C9, as the code has it: a coinbase transaction has the single output
    of value 10, the subsidy, locked to the recipient; and every output of
    a transfer that [NewUTXOTransaction] returns for an amount that is not
    negative has a value that is not negative. *)
Theorem outputs_nonnegative_when_amount_is :
  (forall to data, Vout (NewCoinbaseTX to data) = [mkTXOutput 10 to])
  /\ (forall range from to amount bc tx,
        (0 <= amount)%Z ->
        NewUTXOTransaction range from to amount bc = Ok tx ->
        Forall (fun o => (0 <= Value o)%Z) (Vout tx)).
Proof.
  split.
  - intros to data. reflexivity.
  - intros range from to amount bc tx Hpos Hok.
    destruct (FindSpendableOutputs bc from amount) as [acc sel] eqn:Hsel.
    destruct (NewUTXOTransaction_Ok _ _ _ _ _ _ _ _ Hsel Hok) as [Hge ->].
    pose proof (FindSpendableOutputs_int bc from amount) as Hint.
    rewrite Hsel in Hint. cbn [fst] in Hint.
    cbn [SetID Vout].
    destruct (Z.gtb_spec acc amount) as [Hgt | _].
    + repeat constructor; cbn [Value]; [exact Hpos |].
      unfold sub_int. rewrite wrap_int_id; unfold is_int in *; lia.
    + repeat constructor. cbn [Value]. exact Hpos.
Qed.

(** No sign is checked: for a negative amount nothing is selected, neither
    comparison of [NewUTXOTransaction] stops the transfer, and the amount
    becomes the value of the first output. *)
Lemma negative_amount_not_refused (range : range_order) from to amount bc :
  (amount < 0)%Z ->
  exists tx,
    NewUTXOTransaction range from to amount bc = Ok tx
    /\ Vin tx = []
    /\ Vout tx = [mkTXOutput amount to; mkTXOutput (sub_int 0 amount) from].
Proof.
  intros Hneg.
  pose proof (FindSpendableOutputs_nonpositive bc from amount ltac:(lia)) as Hsel.
  unfold NewUTXOTransaction. rewrite Hsel.
  destruct (Z.ltb_spec 0 amount) as [Hlt | _]; [lia |].
  destruct (Z.gtb_spec 0 amount) as [_ | Hle]; [| lia].
  rewrite range_of_empty. eexists. split; [reflexivity |]. split; reflexivity.
Qed.
End Transfer.


(** Scenario B: Ivan, who holds the subsidy, pays 3 to Bob. *)
Lemma NewUTXOTransaction_inputs_outputs_id_witness :
  (3 <= 10)%Z
  /\ (forall txid idx,
        inputs_spending (Vin tx_bob) txid idx = times_selected sel_bob txid idx)
  /\ Vin tx_bob ≡ₚ make_inputs "Ivan" (map_to_list sel_bob)
  /\ Forall (fun i => ScriptSig i = "Ivan") (Vin tx_bob)
  /\ ((3 < 10)%Z ->
        Vout tx_bob = [mkTXOutput 3 "Bob"; mkTXOutput (sub_int 10 3) "Ivan"])
  /\ (10%Z = 3%Z -> Vout tx_bob = [mkTXOutput 3 "Bob"])
  /\ ((0 <= 3)%Z -> sub_int 10 3 = (10 - 3)%Z)
  /\ ID tx_bob = EncodeToString
                   (Sum256 (demo_gob (mkTransaction "" (Vin tx_bob) (Vout tx_bob)))).
Proof.
  apply (@NewUTXOTransaction_inputs_outputs_id demo_gob demo_range
           "Ivan" "Bob" 3%Z ledger0 10%Z sel_bob tx_bob).
  - rewrite (surjective_pairing (FindSpendableOutputs ledger0 "Ivan" 3)).
    apply (f_equal2 pair); [vm_compute; reflexivity | reflexivity].
  - vm_compute. reflexivity.
Defined.

Lemma zero_amount_transfer_runs :
  exists tx,
    NewUTXOTransaction (H := demo_gob) demo_range "Nobody" "Bob" 0 ledger0 = Ok tx
    /\ Vin tx = [] /\ Vout tx = [mkTXOutput 0 "Bob"].
Proof. eexists. split; [vm_compute; reflexivity |]. split; reflexivity. Qed.


(** C9 fails for a negative amount: a request to pay -5 from Bob, who
    holds nothing, to Eve is served: the block is appended, its transaction
    has an output of value -5, and Bob holds 5 afterwards. *)
Lemma negative_amount_gives_negative_output :
  handleWriteBlock (H := demo_gob) 8 now_minus demo_range
    (mkSendMessage "Bob" "Eve" (-5)) ledger0
  = Some (ledger_minus, Created block_minus)
  /\ blocks ledger_minus = [genesis0; block_minus]
  /\ (exists tx,
        NewUTXOTransaction (H := demo_gob) demo_range "Bob" "Eve" (-5) ledger0 = Ok tx
        /\ Transactions block_minus = [tx]
        /\ Vout tx = [mkTXOutput (-5) "Eve"; mkTXOutput 5 "Bob"]
        /\ ~ Forall (fun o => (0 <= Value o)%Z) (Vout tx))
  /\ handleGetBalance ledger0 "Bob" = 0%Z
  /\ handleGetBalance ledger_minus "Bob" = 5%Z.
Proof.
  split; [vm_compute; reflexivity |].
  split; [vm_compute; reflexivity |].
  split.
  - eexists. split; [vm_compute; reflexivity |].
    split; [vm_compute; reflexivity |].
    split; [reflexivity |].
    intros Hall. apply Forall_cons in Hall as [Hneg _]. cbn in Hneg. lia.
  - split; vm_compute; reflexivity.
Qed.

Lemma outputs_nonnegative_when_amount_is_witness :
  Forall (fun o => (0 <= Value o)%Z) (Vout tx_bob).
Proof.
  apply (proj2 (@outputs_nonnegative_when_amount_is demo_gob)
           demo_range "Ivan" "Bob" 3%Z ledger0 tx_bob).
  - lia.
  - vm_compute. reflexivity.
Defined.

(** ** The genesis block *)

Lemma hex_digits_nonempty fuel :
  forall n acc, acc <> EmptyString -> hex_digits fuel n acc <> EmptyString.
Proof.
  induction fuel as [| fuel IH]; intros n acc Hacc; [exact Hacc |].
  cbn [hex_digits]. destruct (n / 16 =? 0)%Z; [discriminate |].
  apply IH. discriminate.
Qed.

Lemma hex_digits_S_nonempty fuel n acc : hex_digits (S fuel) n acc <> EmptyString.
Proof.
  cbn [hex_digits]. destruct (n / 16 =? 0)%Z; [discriminate |].
  apply hex_digits_nonempty. discriminate.
Qed.

Lemma Sprintf_x_nonempty i : Sprintf_x i <> EmptyString.
Proof.
  unfold Sprintf_x. destruct (i <? 0)%Z; [discriminate |].
  apply (hex_digits_S_nonempty 15).
Qed.

Section Genesis.
Context `{GobEncoder}.

(** X7: The hash the genesis block stores is that of the zero [Block], whatever
    the clock and the encoder: it does not start with a 0. *)
Lemma genesis_hash_constant now :
  Hash (NewGenesisBlock now)
  = "5df6e0e2761359d30a8275058e299fcc0381534545f55cf43e41983f5d4c9456"
  /\ isHashValid (Hash (NewGenesisBlock now)) difficulty = false.
Proof.
  assert (Hash (NewGenesisBlock now)
          = "5df6e0e2761359d30a8275058e299fcc0381534545f55cf43e41983f5d4c9456")
    as Hhash by (cbn [NewGenesisBlock Hash]; vm_compute; reflexivity).
  split; [exact Hhash |]. rewrite Hhash. vm_compute. reflexivity.
Qed.

(** C6, as the code has it: the genesis block holds the one coinbase
    transaction that pays the subsidy to Ivan with the fixed memo, its
    predecessor hash and its nonce are empty, and it is not a result of
    the proof-of-work loop: no nonce is searched for it. *)
Theorem genesis_block_is_unsealed_coinbase_block (now : string) :
  Transactions (NewGenesisBlock now) = [NewCoinbaseTX "Ivan" genesisCoinbaseData]
  /\ IsCoinbase (NewCoinbaseTX "Ivan" genesisCoinbaseData) = true
  /\ Vin (NewCoinbaseTX "Ivan" genesisCoinbaseData)
     = [mkTXInput "" (-1) genesisCoinbaseData]
  /\ Vout (NewCoinbaseTX "Ivan" genesisCoinbaseData) = [mkTXOutput subsidy "Ivan"]
  /\ PrevHash (NewGenesisBlock now) = ""
  /\ Nonce (NewGenesisBlock now) = ""
  /\ (forall fuel i b, proof_of_work fuel i b <> Some (NewGenesisBlock now)).
Proof.
  repeat apply conj; try reflexivity.
  intros fuel i b Hrun.
  apply proof_of_work_shape in Hrun as (j & Hj & _).
  apply (f_equal Nonce) in Hj. cbn [Nonce NewGenesisBlock set_Hash set_Nonce] in Hj.
  exact (Sprintf_x_nonempty j (eq_sym Hj)).
Qed.
End Genesis.

(** The genesis block of a run: its hash is not that of its own fields and
    does not start with a 0. *)
Lemma genesis_block_is_not_sealed :
  calculateHash (@NewGenesisBlock demo_gob now0) <> Hash (@NewGenesisBlock demo_gob now0)
  /\ isHashValid (Hash (@NewGenesisBlock demo_gob now0)) difficulty = false
  /\ String.get 0 (Hash (@NewGenesisBlock demo_gob now0)) = Some "5"%char.
Proof.
  split; [vm_compute; discriminate |].
  split; vm_compute; reflexivity.
Qed.

(** ** Balances *)

(** Scenario A: at start-up Ivan holds the subsidy. *)
Example balance_at_genesis :
  handleGetBalance ledger0 "Ivan" = subsidy
  /\ unspent_relevant_sum ledger0 "Ivan" = subsidy.
Proof. split; vm_compute; reflexivity. Qed.

(** Scenario B: after Ivan paid 3 to Bob, Bob holds 3 and Ivan the change. *)
Example balance_after_transfer :
  @reachable demo_gob ledger_bob
  /\ handleGetBalance ledger_bob "Bob" = 3%Z
  /\ handleGetBalance ledger_bob "Ivan" = 7%Z.
Proof.
  split.
  - apply (@reach_write demo_gob ledger0 ledger_bob 8 now_bob demo_range
             (mkSendMessage "Ivan" "Bob" 3) (Created block_bob)).
    + apply reach_init.
    + vm_compute. reflexivity.
  - split; vm_compute; reflexivity.
Qed.

(** C4 fails on a ledger the program produces: after Ivan paid 3 to himself
    his two outputs, 3 and 7, are unspent, and [handleGetBalance] answers 20:
    [FindUnspentTransactions] lists the transaction once for each of them
    and [FindUTXO] takes both outputs from each listing. *)
Theorem balance_counts_outputs_twice :
  @reachable demo_gob ledger_self
  /\ map (fun tx => (map VoutIdx (Vin tx), Vout tx)) (scanned_transactions ledger_self)
     = [([0%Z], [mkTXOutput 3 "Ivan"; mkTXOutput 7 "Ivan"]);
        ([(-1)%Z], [mkTXOutput 10 "Ivan"])]
  /\ map Value (unspent_relevant_outputs ledger_self "Ivan") = [3; 7]%Z
  /\ unspent_relevant_sum ledger_self "Ivan" = 10%Z
  /\ map (fun tx => map Value (Vout tx)) (FindUnspentTransactions ledger_self "Ivan")
     = [[3; 7]; [3; 7]]%Z
  /\ map Value (FindUTXO ledger_self "Ivan") = [3; 7; 3; 7]%Z
  /\ handleGetBalance ledger_self "Ivan" = 20%Z.
Proof.
  split; [exact ledger_self_reachable |].
  split; [vm_compute; reflexivity |].
  split; [vm_compute; reflexivity |].
  split; [vm_compute; reflexivity |].
  split; [vm_compute; reflexivity |].
  split; vm_compute; reflexivity.
Qed.

(** A spent output is counted too: Ivan then pays 2 to Bob out of his
    output of 3, and that output still adds to his balance. *)
Lemma balance_counts_spent_output :
  handleWriteBlock (H := demo_gob) 8 now_spent demo_range
    (mkSendMessage "Ivan" "Bob" 2) ledger_self
  = Some (ledger_spent, Created block_spent)
  /\ map Value (unspent_relevant_outputs ledger_spent "Ivan") = [1; 7]%Z
  /\ map Value (FindUTXO ledger_spent "Ivan") = [1; 3; 7]%Z
  /\ handleGetBalance ledger_spent "Ivan" = 11%Z.
Proof.
  split; [vm_compute; reflexivity |].
  split; [vm_compute; reflexivity |].
  split; vm_compute; reflexivity.
Qed.

(** The selection repeats itself in the same way: Ivan, who holds 10, can
    gather 20. *)
Lemma spendable_outputs_counted_twice :
  fst (FindSpendableOutputs ledger_self "Ivan" 15) = 20%Z.
Proof. vm_compute. reflexivity. Qed.

(** C8 fails on the same ledger: Ivan, whose unspent outputs are 3 and 7,
    asks to pay 15 to Bob.  [FindSpendableOutputs] walks the two listings of
    his transaction and selects its outputs 0 and 1 twice each, gathering
    20; [NewUTXOTransaction] then builds four inputs, two for each of the
    two selected outputs, and pays 15 to Bob with a change of 5. *)
Theorem transfer_spends_selected_output_twice :
  @reachable demo_gob ledger_self
  /\ map (fun tx => (ID tx, map Value (Vout tx)))
       (FindUnspentTransactions ledger_self "Ivan")
     = [(ID tx_self, [3; 7]%Z); (ID tx_self, [3; 7]%Z)]
  /\ unspent_relevant_sum ledger_self "Ivan" = 10%Z
  /\ fst (FindSpendableOutputs ledger_self "Ivan" 15) = 20%Z
  /\ map fst (map_to_list (snd (FindSpendableOutputs ledger_self "Ivan" 15)))
     = [ID tx_self]
  /\ ints_at (snd (FindSpendableOutputs ledger_self "Ivan" 15)) (ID tx_self)
     = [0; 1; 0; 1]%Z
  /\ exists tx,
       NewUTXOTransaction (H := demo_gob) demo_range "Ivan" "Bob" 15 ledger_self = Ok tx
       /\ map (fun i => (Txid i, VoutIdx i)) (Vin tx)
          = [(ID tx_self, 0%Z); (ID tx_self, 1%Z); (ID tx_self, 0%Z); (ID tx_self, 1%Z)]
       /\ inputs_spending (Vin tx) (ID tx_self) 0 = 2%nat
       /\ inputs_spending (Vin tx) (ID tx_self) 1 = 2%nat
       /\ Vout tx = [mkTXOutput 15 "Bob"; mkTXOutput 5 "Ivan"].
Proof.
  split; [exact ledger_self_reachable |].
  split; [vm_compute; reflexivity |].
  split; [vm_compute; reflexivity |].
  split; [vm_compute; reflexivity |].
  split; [vm_compute; reflexivity |].
  split; [vm_compute; reflexivity |].
  eexists. split; [vm_compute; reflexivity |].
  split; [vm_compute; reflexivity |].
  split; [vm_compute; reflexivity |].
  split; vm_compute; reflexivity.
Qed.

(** The block of the run passes the check, and is refused once its nonce is
    changed from 2 to 3. *)
Lemma isBlockValid_iff_linked_and_recomputes_witness :
  isBlockValid block_self genesis0 = true
  /\ isBlockValid (set_Nonce block_self "3") genesis0 = false.
Proof.
  split.
  - apply (proj1 (isBlockValid_iff_linked_and_recomputes block_self genesis0)).
    split; vm_compute; reflexivity.
  - apply (proj2 (isBlockValid_iff_linked_and_recomputes block_self genesis0)).
    vm_compute. discriminate.
Defined.

(** ** The shape of the ledgers the program produces *)

Section Shape.
Context `{GobEncoder}.

(** A block that [generateBlock] returns holds one transaction and a hash
    that passes the leading-zero test. *)
Lemma generateBlock_mined fuel now range bc oldBlock m newBlock :
  generateBlock fuel now range bc oldBlock m = Some (Ok newBlock) ->
  mined newBlock.
Proof.
  unfold generateBlock.
  destruct (NewUTXOTransaction _ _ _ _ _) as [tx | e]; [| discriminate].
  destruct (proof_of_work fuel 0 _) as [b |] eqn:Hpow; [| discriminate].
  intros [= ->]. apply proof_of_work_shape in Hpow as (j & -> & Hv).
  split; [reflexivity | exact Hv].
Qed.

(** A write request never removes or changes a block: it leaves the
    sequence as it was or adds one mined block at its end. *)
Lemma handleWriteBlock_blocks fuel now range m bc bc' resp :
  handleWriteBlock fuel now range m bc = Some (bc', resp) ->
  blocks bc' = blocks bc
  \/ exists newBlock, mined newBlock /\ blocks bc' = blocks bc ++ [newBlock].
Proof.
  unfold handleWriteBlock.
  destruct (last (blocks bc)) as [tail |]; [| intros [= <- _]; auto].
  destruct (generateBlock _ _ _ _ _ _) as [[newBlock | e] |] eqn:Hgen;
    [| intros [= <- _]; auto | discriminate].
  destruct (isBlockValid newBlock tail); intros [= <- _]; [| auto].
  right. exists newBlock. split; [| reflexivity].
  eapply generateBlock_mined. exact Hgen.
Qed.

(** A ledger of the program starts with a genesis block, and every later
    block holds one transaction and a hash with [difficulty] leading
    zeros. *)
Lemma reachable_shape (bc : Blockchain) :
  reachable bc ->
  exists now rest,
    blocks bc = NewGenesisBlock now :: rest /\ Forall mined rest.
Proof.
  induction 1 as [now | bc bc' fuel now range m resp _ IH Hstep].
  - exists now, []. split; [reflexivity | constructor].
  - destruct IH as (now0 & rest & Hbc & Hrest).
    apply handleWriteBlock_blocks in Hstep as [-> | (newBlock & Hm & ->)].
    + eauto.
    + exists now0, (rest ++ [newBlock]). rewrite Hbc. split; [reflexivity |].
      apply Forall_app. split; [exact Hrest |].
      constructor; [exact Hm | constructor].
Qed.

(** X4: The scan of [FindUnspentTransactions] never meets a block without
    transactions in a ledger of the program: it visits every block. *)
Theorem reachable_scan_visits_every_block (bc : Blockchain) :
  reachable bc -> scanned (rev (blocks bc)) = rev (blocks bc).
Proof.
  intros Hreach.
  assert (Forall (fun b => length (Transactions b) <> 0) (blocks bc)) as Hall.
  { destruct (reachable_shape bc Hreach) as (now & rest & -> & Hrest).
    constructor; [cbn; lia |].
    eapply Forall_impl; [exact Hrest |]. intros b [Hone _]. lia. }
  apply Forall_rev in Hall. induction Hall as [| b l Hb _ IH]; [reflexivity |].
  cbn [scanned]. destruct (Nat.eqb_spec (length (Transactions b)) 0); [lia |].
  rewrite IH. reflexivity.
Qed.

(** X3: The sequence is append-only: what a write request leaves starts with
    the blocks that were there, in their order. *)
Theorem handleWriteBlock_keeps_blocks fuel now range m bc bc' resp :
  handleWriteBlock fuel now range m bc = Some (bc', resp) ->
  blocks bc `prefix_of` blocks bc'
  /\ (length (blocks bc') <= S (length (blocks bc)))%nat.
Proof.
  intros Hstep.
  apply handleWriteBlock_blocks in Hstep as [-> | (newBlock & _ & ->)].
  - split; [reflexivity | lia].
  - split; [apply prefix_app_r; reflexivity |]. rewrite length_app. cbn. lia.
Qed.

(** X2: The ledger is never empty: its first block is a genesis block and its
    last block is defined. *)
Theorem reachable_tail_defined (bc : Blockchain) :
  reachable bc ->
  (exists now, blocks bc !! 0%nat = Some (NewGenesisBlock now))
  /\ (exists tail, last (blocks bc) = Some tail).
Proof.
  intros Hreach.
  destruct (reachable_shape bc Hreach) as (now & rest & Hbc & _).
  rewrite Hbc. split; [exists now; reflexivity |].
  destruct (last (NewGenesisBlock now :: rest)) as [tail |] eqn:Hlast; [eauto |].
  apply last_None in Hlast. discriminate.
Qed.

(** X1: Every block committed after the genesis block has a hash that starts
    with [difficulty] characters 0. *)
Theorem reachable_committed_blocks_sealed (bc : Blockchain) (i : nat) (b : Block) :
  reachable bc ->
  (0 < i)%nat ->
  blocks bc !! i = Some b ->
  forall k, (k < difficulty)%nat -> String.get k (Hash b) = Some "0"%char.
Proof.
  intros Hreach Hi Hb.
  destruct (reachable_shape bc Hreach) as (now & rest & Hbc & Hrest).
  rewrite Hbc in Hb. destruct i as [| i]; [lia |]. cbn in Hb.
  rewrite Forall_lookup in Hrest. destruct (Hrest i b Hb) as [_ Hv].
  apply isHashValid_leading_zeros. exact Hv.
Qed.
End Shape.

Lemma ledger_spent_reachable : @reachable demo_gob ledger_spent.
Proof.
  apply (@reach_write demo_gob ledger_self ledger_spent 8 now_spent demo_range
           (mkSendMessage "Ivan" "Bob" 2) (Created block_spent)).
  - exact ledger_self_reachable.
  - vm_compute. reflexivity.
Defined.

Lemma reachable_scan_visits_every_block_witness :
  scanned (rev (blocks ledger_spent)) = rev (blocks ledger_spent).
Proof.
  apply (@reachable_scan_visits_every_block demo_gob ledger_spent).
  exact ledger_spent_reachable.
Defined.

Lemma handleWriteBlock_keeps_blocks_witness :
  blocks ledger_self `prefix_of` blocks ledger_spent
  /\ (length (blocks ledger_spent) <= S (length (blocks ledger_self)))%nat.
Proof.
  apply (@handleWriteBlock_keeps_blocks demo_gob 8 now_spent demo_range
           (mkSendMessage "Ivan" "Bob" 2) ledger_self ledger_spent (Created block_spent)).
  vm_compute. reflexivity.
Defined.

Lemma reachable_tail_defined_witness :
  (exists now, blocks ledger_spent !! 0%nat = Some (@NewGenesisBlock demo_gob now))
  /\ (exists tail, last (blocks ledger_spent) = Some tail).
Proof.
  apply (@reachable_tail_defined demo_gob ledger_spent).
  exact ledger_spent_reachable.
Defined.

Lemma reachable_committed_blocks_sealed_witness :
  String.get 0 (Hash block_spent) = Some "0"%char.
Proof.
  apply (@reachable_committed_blocks_sealed demo_gob ledger_spent 2 block_spent).
  - exact ledger_spent_reachable.
  - lia.
  - reflexivity.
  - unfold difficulty. lia.
Defined.

Lemma generateBlock_valid_witness : isBlockValid block_self genesis0 = true.
Proof.
  apply (@generateBlock_valid demo_gob 8 now_self demo_range ledger0 genesis0
           (mkSendMessage "Ivan" "Ivan" 3) block_self).
  vm_compute. reflexivity.
Defined.

(** The candidate of the run above: nonce 2 is good, so the loop returns
    within 8 iterations. *)
Lemma proof_of_work_finds_witness :
  exists sealed,
    proof_of_work 8 0 (mkBlock now_self (Transactions block_self) "" (Hash genesis0) "")
    = Some sealed.
Proof.
  apply (proof_of_work_finds 8 0%Z _ 2).
  - lia.
  - vm_compute. discriminate.
  - lia.
  - vm_compute. reflexivity.
Defined.

(** ** Requests served at the same time *)



(** The other way for two such requests to end: Bob's block is appended
    before the check of the other block, which then fails against the new
    last block; the block is dropped, and the handler has nothing but the
    answer 201 with that block to give. *)
Lemma interleaved_request_dropped :
  isBlockValid block_self block_bob = false
  /\ @interleaved_reachable demo_gob (mkServer ledger_bob [Generated block_self])
  /\ @interleaved_step demo_gob
       (mkServer ledger_bob [Generated block_self]) (mkServer ledger_bob []).
Proof.
  assert (isBlockValid block_self block_bob = false) as Hbad by (vm_compute; reflexivity).
  split; [exact Hbad |]. split.
  - pose (s0 := mkServer ledger0 []).
    pose (s1 := mkServer ledger0 [Generated block_bob]).
    pose (s2 := mkServer ledger0 [Generated block_self; Generated block_bob]).
    pose (s3 := mkServer ledger0 [Generated block_self; Checked block_bob]).
    apply (ireach_step s3); [apply (ireach_step s2); [apply (ireach_step s1);
      [apply (ireach_step s0); [apply ireach_init |] |] |] |].
    + apply (step_generate s0 8 now_bob demo_range (mkSendMessage "Ivan" "Bob" 3)
               genesis0 block_bob); vm_compute; reflexivity.
    + apply (step_generate s1 8 now_self demo_range (mkSendMessage "Ivan" "Ivan" 3)
               genesis0 block_self); vm_compute; reflexivity.
    + apply (step_check s2 [Generated block_self] [] block_bob genesis0); reflexivity.
    + apply (step_append s3 [Generated block_self] [] block_bob). reflexivity.
  - pose proof (@step_check demo_gob (mkServer ledger_bob [Generated block_self])
                  [] [] block_self block_bob eq_refl eq_refl) as Hstep.
    cbn [ledger] in Hstep. rewrite Hbad in Hstep. exact Hstep.
Qed.

(** * Further properties of the code *)

(** ** The fingerprints *)

Lemma compress_length h block : length (SHA256.compress h block) = 8%nat.
Proof. reflexivity. Qed.

Lemma blocks_length fuel :
  forall h bs, length h = 8%nat -> length (SHA256.blocks fuel h bs) = 8%nat.
Proof.
  induction fuel as [| fuel IH]; intros h bs Hh; [exact Hh |].
  cbn [SHA256.blocks]. destruct bs as [| b bs]; [exact Hh |].
  apply IH. apply compress_length.
Qed.

Lemma be_bytes_length n x : length (SHA256.be_bytes n x) = n.
Proof. induction n as [| n IH]; [reflexivity |]. cbn [SHA256.be_bytes length]. rewrite IH. reflexivity. Qed.

Lemma flat_map_be_bytes_length (ws : list Z) :
  length (flat_map (SHA256.be_bytes 4) ws) = (4 * length ws)%nat.
Proof.
  induction ws as [| w ws IH]; [reflexivity |].
  cbn [flat_map]. rewrite length_app, be_bytes_length, IH. cbn [length]. lia.
Qed.

Lemma string_of_bytes_length bs : String.length (string_of_bytes bs) = length bs.
Proof. induction bs as [| b bs IH]; [reflexivity |]. cbn. rewrite IH. reflexivity. Qed.

Lemma Sum256_length data : String.length (Sum256 data) = 32%nat.
Proof.
  unfold Sum256, SHA256.digest.
  rewrite string_of_bytes_length, flat_map_be_bytes_length, blocks_length; reflexivity.
Qed.

Lemma hexdigit_is_hex n : is_hex (hexdigit n).
Proof.
  unfold is_hex.
  destruct n as [| p | p]; [cbn; tauto | | cbn; tauto].
  do 4 (try destruct p as [p | p |]); cbn; tauto.
Qed.

Lemma EncodeToString_length src :
  String.length (EncodeToString src) = (2 * String.length src)%nat.
Proof. induction src as [| c r IH]; [reflexivity |]. cbn [EncodeToString String.length]. rewrite IH. lia. Qed.

Lemma EncodeToString_hex src :
  Forall is_hex (list_ascii_of_string (EncodeToString src)).
Proof.
  induction src as [| c r IH]; [constructor |].
  cbn [EncodeToString list_ascii_of_string].
  constructor; [apply hexdigit_is_hex |]. constructor; [apply hexdigit_is_hex | exact IH].
Qed.

(** X11: the hash of a block is always a text of 64 characters of
    lower-case base 16, so no hash passes the leading-zero test at a
    difficulty above 64. *)
Theorem calculateHash_is_64_hex_digits (b : Block) :
  String.length (calculateHash b) = 64%nat
  /\ Forall is_hex (list_ascii_of_string (calculateHash b))
  /\ (forall d, (64 < d)%nat -> isHashValid (calculateHash b) d = false).
Proof.
  assert (String.length (calculateHash b) = 64%nat) as Hlen.
  { unfold calculateHash. rewrite EncodeToString_length, Sum256_length. reflexivity. }
  split; [exact Hlen |]. split; [apply EncodeToString_hex |].
  intros d Hd. destruct (isHashValid (calculateHash b) d) eqn:Hv; [| reflexivity].
  rewrite isHashValid_leading_zeros in Hv.
  specialize (Hv 64%nat Hd).
  assert (forall s n, String.get n s <> None -> (n < String.length s)%nat) as Hget.
  { intros s. induction s as [| c s IH]; intros n Hn; [cbn in Hn; congruence |].
    destruct n as [| n]; cbn; [lia |]. cbn in Hn. apply IH in Hn. lia. }
  assert (64 < String.length (calculateHash b))%nat by (apply Hget; congruence).
  lia.
Qed.

Lemma HashTransactions_ids b b' :
  map ID (Transactions b) = map ID (Transactions b') ->
  HashTransactions b = HashTransactions b'.
Proof.
  unfold HashTransactions. intros Hids. f_equal.
  assert (forall txs, fold_right (fun tx r => ID tx +:+ r) EmptyString txs
                      = fold_right String.append EmptyString (map ID txs)) as Hfold.
  { induction txs as [| tx txs IH]; [reflexivity |]. cbn. rewrite IH. reflexivity. }
  rewrite !Hfold, Hids. reflexivity.
Qed.

(** X12: the hash of a block covers the text made of its timestamp,
    predecessor hash and nonce written one after the other, and the [ID]s of
    its transactions, and nothing else: a block with the same text whose
    transactions keep their [ID]s but have other inputs or outputs has the
    same hash, and with the same predecessor hash and stored hash it passes
    [isBlockValid] exactly when the original does. *)
Theorem calculateHash_covers_text_and_ids (b b' : Block) :
  Timestamp b +:+ PrevHash b +:+ Nonce b = Timestamp b' +:+ PrevHash b' +:+ Nonce b' ->
  map ID (Transactions b) = map ID (Transactions b') ->
  calculateHash b = calculateHash b'
  /\ (PrevHash b = PrevHash b' -> Hash b = Hash b' ->
      forall oldBlock, isBlockValid b' oldBlock = isBlockValid b oldBlock).
Proof.
  intros Htext Hids.
  assert (calculateHash b = calculateHash b') as Hcalc.
  { unfold calculateHash. rewrite Htext, (HashTransactions_ids b b' Hids). reflexivity. }
  split; [exact Hcalc |].
  intros Hprev Hhash oldBlock. unfold isBlockValid. rewrite Hcalc, Hhash, Hprev.
  reflexivity.
Qed.

(** The forged block, which pays 1000 to Eve, passes the check against the
    genesis block as the mined block does. *)
Lemma calculateHash_covers_text_and_ids_witness :
  calculateHash block_bob = calculateHash forged_bob
  /\ (PrevHash block_bob = PrevHash forged_bob -> Hash block_bob = Hash forged_bob ->
      forall oldBlock, isBlockValid forged_bob oldBlock = isBlockValid block_bob oldBlock).
Proof.
  apply (calculateHash_covers_text_and_ids block_bob forged_bob); reflexivity.
Defined.

Example forged_block_is_valid :
  map Vout (Transactions forged_bob) = [[mkTXOutput 1000 "Eve"]]
  /\ isBlockValid forged_bob genesis0 = true.
Proof. split; [reflexivity | vm_compute; reflexivity]. Qed.

(** The three texts are not delimited: the end of the timestamp can move to
    the start of the predecessor hash without changing the hash. *)
Example shifted_fields_same_hash :
  calculateHash (mkBlock "2018-03-01 10:00" [] "" "5df6" "2")
  = calculateHash (mkBlock "2018-03-01 10:0" [] "" "05df6" "2").
Proof.
  apply (calculateHash_covers_text_and_ids
           (mkBlock "2018-03-01 10:00" [] "" "5df6" "2")
           (mkBlock "2018-03-01 10:0" [] "" "05df6" "2")); reflexivity.
Qed.

(** ** What a write request does *)

Section Outcomes.
Context `{GobEncoder}.


End Outcomes.


(** ** What a transfer spends *)

Lemma CanBeUnlockedWith_true out address :
  CanBeUnlockedWith out address = true <-> ScriptPubKey out = address.
Proof. unfold CanBeUnlockedWith. apply String.eqb_eq. Qed.

Lemma ints_at_push_int sel k v k' :
  ints_at (push_int sel k v) k'
  = if decide (k = k') then ints_at sel k ++ [v] else ints_at sel k'.
Proof.
  unfold push_int, ints_at at 1. rewrite lookup_insert.
  destruct (decide (k = k')) as [-> | Hne]; reflexivity.
Qed.

Lemma spend_outputs_selects address amount L tx :
  tx ∈ L ->
  forall outs pre idx st,
    Vout tx = pre ++ outs ->
    idx = Z.of_nat (length pre) ->
    selects_from address L (snd st) ->
    selects_from address L
      (snd (loop_state (spend_outputs address amount (ID tx) idx outs st))).
Proof.
  intros Htx. induction outs as [| out rest IH]; intros pre idx [acc sel] Hvout Hidx Hsel;
    [exact Hsel |].
  cbn [spend_outputs].
  assert (Vout tx = (pre ++ [out]) ++ rest) as Hvout' by (rewrite <- app_assoc; exact Hvout).
  assert ((idx + 1)%Z = Z.of_nat (length (pre ++ [out]))) as Hidx'
    by (rewrite length_app; cbn; lia).
  destruct (CanBeUnlockedWith out address) eqn:Hlock; cbn [andb];
    [| apply (IH (pre ++ [out]) (idx + 1)%Z (acc, sel)); assumption].
  destruct (acc <? amount)%Z;
    [| apply (IH (pre ++ [out]) (idx + 1)%Z (acc, sel)); assumption].
  assert (selects_from address L (push_int sel (ID tx) idx)) as Hsel'.
  { intros k idx' Hin. rewrite ints_at_push_int in Hin.
    destruct (decide (ID tx = k)) as [<- | Hne]; [| exact (Hsel _ _ Hin)].
    apply elem_of_app in Hin as [Hin | Hin]; [exact (Hsel _ _ Hin) |].
    apply list_elem_of_singleton in Hin as ->.
    exists tx, out. split; [exact Htx |]. split; [reflexivity |]. split; [lia |].
    split; [| apply CanBeUnlockedWith_true; exact Hlock].
    rewrite Hvout, Hidx, Nat2Z.id, lookup_app_r by lia.
    rewrite Nat.sub_diag. reflexivity. }
  destruct (add_int acc (Value out) >=? amount)%Z; [exact Hsel' |].
  apply (IH (pre ++ [out]) (idx + 1)%Z
            (add_int acc (Value out), push_int sel (ID tx) idx)); assumption.
Qed.

Lemma spend_txs_selects address amount L txs :
  (forall tx, tx ∈ txs -> tx ∈ L) ->
  forall st,
    selects_from address L (snd st) ->
    selects_from address L (snd (spend_txs address amount txs st)).
Proof.
  induction txs as [| tx rest IH]; intros Hsub st Hsel; [exact Hsel |].
  cbn [spend_txs].
  pose proof (spend_outputs_selects address amount L tx
                (Hsub tx ltac:(left)) (Vout tx) [] 0%Z st eq_refl eq_refl Hsel) as Hout.
  destruct (spend_outputs address amount (ID tx) 0 (Vout tx) st) as [st' | r];
    [| exact Hout].
  apply IH; [| exact Hout]. intros tx' Hin. apply Hsub. right. exact Hin.
Qed.

Lemma FindSpendableOutputs_selects bc address amount :
  selects_from address (FindUnspentTransactions bc address)
    (snd (FindSpendableOutputs bc address amount)).
Proof.
  unfold FindSpendableOutputs. apply spend_txs_selects; [auto |].
  intros k idx Hin. cbn [snd] in Hin. unfold ints_at in Hin.
  rewrite lookup_empty in Hin. cbn in Hin. apply elem_of_nil in Hin. contradiction.
Qed.

Lemma elem_of_make_inputs from kvs i :
  i ∈ make_inputs from kvs ->
  exists k outs, (k, outs) ∈ kvs /\ VoutIdx i ∈ outs /\ Txid i = k /\ ScriptSig i = from.
Proof.
  unfold make_inputs. intros Hi. apply list_elem_of_In in Hi.
  apply in_flat_map in Hi as ([k outs] & Hkv & Hi).
  apply in_map_iff in Hi as (out & <- & Hout).
  exists k, outs. cbn. repeat split; apply list_elem_of_In; assumption.
Qed.

Section Spending.
Context `{GobEncoder}.

(** Each input of a transfer names a selected output. *)
Lemma NewUTXOTransaction_inputs_selected
    (range : range_order) (from to : string) (amount : Z) (bc : Blockchain)
    (tx : Transaction) :
  NewUTXOTransaction range from to amount bc = Ok tx ->
  Forall (fun i =>
            ScriptSig i = from
            /\ exists tx' out,
                 tx' ∈ FindUnspentTransactions bc from
                 /\ ID tx' = Txid i
                 /\ (0 <= VoutIdx i)%Z
                 /\ Vout tx' !! Z.to_nat (VoutIdx i) = Some out
                 /\ ScriptPubKey out = from)
         (Vin tx).
Proof.
  intros Hok.
  destruct (FindSpendableOutputs bc from amount) as [acc sel] eqn:Hfso.
  destruct (NewUTXOTransaction_Ok _ _ _ _ _ _ _ _ Hfso Hok) as [_ ->].
  cbn [SetID Vin]. apply Forall_forall. intros i Hi.
  apply elem_of_make_inputs in Hi as (k & outs & Hkv & Hidx & Hk & Hsig).
  split; [exact Hsig |].
  rewrite (range_of_perm range sel) in Hkv. apply elem_of_map_to_list in Hkv.
  pose proof (FindSpendableOutputs_selects bc from amount) as Hsel.
  rewrite Hfso in Hsel. cbn [snd] in Hsel.
  destruct (Hsel k (VoutIdx i)) as (tx' & out & Htx' & Hid & Hpos & Hout & Hlock).
  { unfold ints_at. rewrite Hkv. exact Hidx. }
  exists tx', out. rewrite Hk. auto.
Qed.

(** X15: [IsCoinbase] tells the two constructors apart: a transaction of
    [NewCoinbaseTX] is a coinbase whatever the recipient and the memo, and a
    transaction that [NewUTXOTransaction] returns never is. *)
Theorem IsCoinbase_tells_constructors_apart :
  (forall to data, IsCoinbase (NewCoinbaseTX to data) = true)
  /\ (forall range from to amount bc tx,
        NewUTXOTransaction range from to amount bc = Ok tx ->
        IsCoinbase tx = false).
Proof.
  split; [reflexivity |].
  intros range from to amount bc tx Hok.
  pose proof (NewUTXOTransaction_inputs_selected range from to amount bc tx Hok) as Hall.
  unfold IsCoinbase. destruct (Vin tx) as [| i [| i' rest]]; [reflexivity | | reflexivity].
  apply Forall_cons in Hall as [(_ & _ & _ & _ & _ & Hpos & _) _].
  destruct (Z.eqb_spec (VoutIdx i) (-1)) as [Heq | _]; [lia |].
  apply andb_false_r.
Qed.
End Spending.

(** ** The scan for unspent transactions *)

Lemma existsb_spent (spent : list Z) (idx : Z) :
  existsb (fun spentOut => (spentOut =? idx)%Z) spent = true <-> idx ∈ spent.
Proof.
  rewrite existsb_exists. split.
  - intros (x & Hx & Heq). apply Z.eqb_eq in Heq as <-. apply list_elem_of_In. exact Hx.
  - intros Hin. exists idx. split; [apply list_elem_of_In; exact Hin | apply Z.eqb_refl].
Qed.

Lemma scan_outputs_listing address spent tx outs :
  forall (n : nat) (unspentTXs : list Transaction),
    scan_outputs address spent tx (Z.of_nat n) outs unspentTXs
    = unspentTXs ++ replicate (length (open_outputs address spent n outs)) tx.
Proof.
  unfold open_outputs.
  induction outs as [| out rest IH]; intros n unspentTXs.
  - cbn. rewrite app_nil_r. reflexivity.
  - cbn [scan_outputs]. rewrite imap_cons, filter_cons. cbn [fst snd].
    rewrite Nat.add_0_r.
    replace (Z.of_nat n + 1)%Z with (Z.of_nat (S n)) by lia.
    rewrite (imap_ext _ (fun i o => ((S n + i)%nat, o)))
      by (intros i o _; cbn; f_equal; lia).
    destruct (existsb _ spent) eqn:Hex.
    + apply existsb_spent in Hex. rewrite decide_False by tauto. apply IH.
    + assert (Z.of_nat n ∉ spent) as Hnot
        by (intros Hin; apply existsb_spent in Hin; congruence).
      destruct (CanBeUnlockedWith out address) eqn:Hlock.
      * apply CanBeUnlockedWith_true in Hlock.
        rewrite decide_True by auto. rewrite IH. cbn [length replicate].
        rewrite <- app_assoc. reflexivity.
      * assert (ScriptPubKey out <> address) as Hne.
        { intros Heq. apply CanBeUnlockedWith_true in Heq. congruence. }
        rewrite decide_False by tauto. apply IH.
Qed.

Lemma mark_spent_ints address vin :
  forall spentTXOs k,
    ints_at (mark_spent address vin spentTXOs) k
    = ints_at spentTXOs k
      ++ flat_map (fun i => if CanUnlockOutputWith i address && String.eqb (Txid i) k
                            then [VoutIdx i] else []) vin.
Proof.
  induction vin as [| i rest IH]; intros m k; cbn [mark_spent flat_map].
  - rewrite app_nil_r. reflexivity.
  - destruct (CanUnlockOutputWith i address); cbn [andb].
    + rewrite IH, ints_at_push_int.
      destruct (String.eqb_spec (Txid i) k) as [-> | Hne].
      * rewrite decide_True by reflexivity. rewrite <- app_assoc. reflexivity.
      * rewrite decide_False by exact Hne. reflexivity.
    + apply IH.
Qed.

Lemma scan_tx_listing address seen tx unspentTXs spentTXOs :
  spent_is address seen spentTXOs ->
  exists spentTXOs',
    scan_tx address (unspentTXs, spentTXOs) tx
    = (unspentTXs ++ unspent_listing address seen [tx], spentTXOs')
    /\ spent_is address (seen ++ [tx]) spentTXOs'.
Proof.
  intros Hspent. unfold scan_tx.
  set (m' := if negb (IsCoinbase tx) then mark_spent address (Vin tx) spentTXOs
             else spentTXOs).
  assert (spent_is address (seen ++ [tx]) m') as Hspent'.
  { intros k. unfold marks. rewrite flat_map_app. cbn [flat_map]. rewrite app_nil_r.
    fold (marks address k seen). rewrite <- Hspent. unfold marks_of, m'.
    destruct (IsCoinbase tx); cbn [negb].
    - rewrite app_nil_r. reflexivity.
    - apply mark_spent_ints. }
  exists m'. split; [| exact Hspent'].
  f_equal. rewrite (scan_outputs_listing address _ tx (Vout tx) 0).
  cbn [unspent_listing]. rewrite app_nil_r, (Hspent' (ID tx)). reflexivity.
Qed.

Lemma unspent_listing_app address txs1 :
  forall seen txs2,
    unspent_listing address seen (txs1 ++ txs2)
    = unspent_listing address seen txs1
      ++ unspent_listing address (seen ++ txs1) txs2.
Proof.
  induction txs1 as [| tx rest IH]; intros seen txs2.
  - cbn. rewrite app_nil_r. reflexivity.
  - cbn [app unspent_listing]. rewrite IH, <- !app_assoc. reflexivity.
Qed.

Lemma fold_scan_tx_listing address txs :
  forall seen unspentTXs spentTXOs,
    spent_is address seen spentTXOs ->
    exists spentTXOs',
      fold_left (scan_tx address) txs (unspentTXs, spentTXOs)
      = (unspentTXs ++ unspent_listing address seen txs, spentTXOs')
      /\ spent_is address (seen ++ txs) spentTXOs'.
Proof.
  induction txs as [| tx rest IH]; intros seen unspentTXs spentTXOs Hspent.
  - exists spentTXOs. cbn. rewrite !app_nil_r. auto.
  - cbn [fold_left].
    destruct (scan_tx_listing address seen tx unspentTXs spentTXOs Hspent)
      as (m1 & -> & Hm1).
    destruct (IH (seen ++ [tx]) (unspentTXs ++ unspent_listing address seen [tx]) m1 Hm1)
      as (m2 & -> & Hm2).
    exists m2. rewrite <- !app_assoc in *. split; [| exact Hm2].
    f_equal. change (tx :: rest) with ([tx] ++ rest).
    rewrite unspent_listing_app. reflexivity.
Qed.

Lemma scan_blocks_listing address newest_first :
  forall seen unspentTXs spentTXOs,
    spent_is address seen spentTXOs ->
    scan_blocks address newest_first (unspentTXs, spentTXOs)
    = unspentTXs
      ++ unspent_listing address seen (flat_map Transactions (scanned newest_first)).
Proof.
  induction newest_first as [| b older IH]; intros seen unspentTXs spentTXOs Hspent.
  - cbn. rewrite app_nil_r. reflexivity.
  - cbn [scan_blocks scanned].
    destruct (length (Transactions b) =? 0)%nat.
    + cbn. rewrite app_nil_r. reflexivity.
    + destruct (fold_scan_tx_listing address (Transactions b) seen unspentTXs
                  spentTXOs Hspent) as (m' & -> & Hm').
      rewrite (IH _ _ _ Hm'). cbn [flat_map].
      rewrite unspent_listing_app, <- app_assoc. reflexivity.
Qed.

(** [FindUnspentTransactions] lists the transactions in the order of the
    scan, each once for every output that is locked to the address and not
    marked as spent when the scan is at this transaction. *)
Lemma FindUnspentTransactions_listing (bc : Blockchain) (address : string) :
  FindUnspentTransactions bc address
  = unspent_listing address [] (scanned_transactions bc).
Proof.
  unfold FindUnspentTransactions, scanned_transactions.
  rewrite (scan_blocks_listing address (rev (blocks bc)) [] [] ∅); [reflexivity |].
  intros k. unfold ints_at. rewrite lookup_empty. reflexivity.
Qed.

Lemma elem_of_open_outputs address spent outs i out :
  (i, out) ∈ open_outputs address spent 0 outs
  <-> outs !! i = Some out /\ (Z.of_nat i ∉ spent) /\ ScriptPubKey out = address.
Proof.
  unfold open_outputs. rewrite list_elem_of_filter, elem_of_lookup_imap. cbn [fst snd].
  split.
  - intros [[Hnot Hlock] (j & y & [= -> ->] & Hlook)]. auto.
  - intros (Hlook & Hnot & Hlock). split; [auto |]. exists i, out. auto.
Qed.

Lemma elem_of_unspent_listing address txs :
  forall seen tx,
    tx ∈ unspent_listing address seen txs
    <-> exists pre post idx out,
          txs = pre ++ tx :: post
          /\ Vout tx !! idx = Some out
          /\ ScriptPubKey out = address
          /\ Z.of_nat idx ∉ marks address (ID tx) (seen ++ pre ++ [tx]).
Proof.
  induction txs as [| tx0 rest IH]; intros seen tx; cbn [unspent_listing].
  - split; [intros Hin; apply elem_of_nil in Hin; contradiction |].
    intros (pre & post & _ & _ & Heq & _). destruct pre; discriminate.
  - rewrite elem_of_app, IH. split.
    + intros [Hhere | (pre & post & idx & out & -> & Hout & Hlock & Hnot)].
      * apply elem_of_replicate in Hhere as [-> Hlen].
        destruct (open_outputs address (marks address (ID tx0) (seen ++ [tx0])) 0
                    (Vout tx0)) as [| [i out] l] eqn:Hopen; [cbn in Hlen; congruence |].
        assert ((i, out) ∈ open_outputs address
                  (marks address (ID tx0) (seen ++ [tx0])) 0 (Vout tx0)) as Hin
          by (rewrite Hopen; left).
        apply elem_of_open_outputs in Hin as (Hout & Hnot & Hlock).
        exists [], rest, i, out. cbn [app]. auto.
      * exists (tx0 :: pre), post, idx, out. rewrite <- app_assoc in Hnot. auto.
    + intros (pre & post & idx & out & Heq & Hout & Hlock & Hnot).
      destruct pre as [| tx1 pre]; cbn [app] in Heq; injection Heq as -> ->.
      * left. apply elem_of_replicate. split; [reflexivity |]. cbn [app] in Hnot.
        assert ((idx, out) ∈ open_outputs address
                  (marks address (ID tx) (seen ++ [tx])) 0 (Vout tx)) as Hin
          by (apply elem_of_open_outputs; auto).
        destruct (open_outputs _ _ _ _); [apply elem_of_nil in Hin; contradiction |].
        cbn. congruence.
      * right. exists pre, post, idx, out. rewrite <- app_assoc. auto.
Qed.

(** X16: a transaction is listed by [FindUnspentTransactions] exactly when
    it stands in the scanned part of the chain and has an output locked to
    the address whose index is not marked as spent there by an input,
    unlockable by the address, of a non-coinbase transaction that the scan
    (newest block first) reaches no later than this one. *)
Theorem FindUnspentTransactions_lists (bc : Blockchain) (address : string)
    (tx : Transaction) :
  tx ∈ FindUnspentTransactions bc address
  <-> exists pre post idx out,
        scanned_transactions bc = pre ++ tx :: post
        /\ Vout tx !! idx = Some out
        /\ ScriptPubKey out = address
        /\ Z.of_nat idx ∉ marks address (ID tx) (pre ++ [tx]).
Proof.
  rewrite FindUnspentTransactions_listing. apply elem_of_unspent_listing.
Qed.

Lemma scanned_in_chain (bc : Blockchain) (tx : Transaction) :
  tx ∈ scanned_transactions bc ->
  exists b, b ∈ blocks bc /\ tx ∈ Transactions b.
Proof.
  unfold scanned_transactions.
  assert (forall l b, b ∈ scanned l -> b ∈ l) as Hsub.
  { induction l as [| b0 l IH]; intros b Hb; [exact Hb |]. cbn [scanned] in Hb.
    destruct (length (Transactions b0) =? 0)%nat;
      [apply elem_of_nil in Hb; contradiction |].
    apply elem_of_cons in Hb as [-> | Hb]; [left | right; auto]. }
  intros Hin. apply list_elem_of_In in Hin. apply in_flat_map in Hin as (b & Hb & Htx).
  exists b. split; [| apply list_elem_of_In; exact Htx].
  apply list_elem_of_In in Hb. apply Hsub in Hb. apply list_elem_of_In in Hb.
  apply in_rev in Hb. apply list_elem_of_In. exact Hb.
Qed.

Lemma FindUnspentTransactions_in_chain bc address tx :
  tx ∈ FindUnspentTransactions bc address ->
  exists b, b ∈ blocks bc /\ tx ∈ Transactions b.
Proof.
  intros Hin. apply scanned_in_chain.
  rewrite FindUnspentTransactions_listing in Hin.
  apply elem_of_unspent_listing in Hin as (pre & post & _ & _ & -> & _).
  apply elem_of_app. right. left.
Qed.

Lemma elem_of_FindUTXO bc address out :
  out ∈ FindUTXO bc address ->
  ScriptPubKey out = address
  /\ exists tx, tx ∈ FindUnspentTransactions bc address /\ out ∈ Vout tx.
Proof.
  unfold FindUTXO. intros Hin. apply list_elem_of_In in Hin.
  apply in_flat_map in Hin as (tx & Htx & Hout).
  apply list_elem_of_In in Hout. apply list_elem_of_filter in Hout as [Hlock Hout].
  split; [apply CanBeUnlockedWith_true; exact Hlock |].
  exists tx. split; [apply list_elem_of_In; exact Htx | exact Hout].
Qed.

(** X17: [FindUTXO] returns only outputs that are locked to the address and
    stand in a transaction of a block of the ledger; so an address to which
    no output of the ledger is locked has no such output and the balance 0. *)
Theorem FindUTXO_outputs_locked_and_in_chain (bc : Blockchain) (address : string) :
  (forall out, out ∈ FindUTXO bc address ->
     ScriptPubKey out = address
     /\ exists b tx, b ∈ blocks bc /\ tx ∈ Transactions b /\ out ∈ Vout tx)
  /\ ((forall b tx out, b ∈ blocks bc -> tx ∈ Transactions b -> out ∈ Vout tx ->
         ScriptPubKey out <> address) ->
      FindUTXO bc address = [] /\ handleGetBalance bc address = 0%Z).
Proof.
  assert (forall out, out ∈ FindUTXO bc address ->
     ScriptPubKey out = address
     /\ exists b tx, b ∈ blocks bc /\ tx ∈ Transactions b /\ out ∈ Vout tx) as Hall.
  { intros out Hin. apply elem_of_FindUTXO in Hin as (Hlock & tx & Htx & Hout).
    split; [exact Hlock |].
    apply FindUnspentTransactions_in_chain in Htx as (b & Hb & Htx). eauto. }
  split; [exact Hall |].
  intros Hnone.
  assert (FindUTXO bc address = []) as Hnil.
  { destruct (FindUTXO bc address) as [| out l] eqn:Hutxo; [reflexivity |].
    destruct (Hall out ltac:(left)) as (Hlock & b & tx & Hb & Htx & Hout).
    exfalso. exact (Hnone b tx out Hb Htx Hout Hlock). }
  split; [exact Hnil |]. unfold handleGetBalance. rewrite Hnil. reflexivity.
Qed.

Lemma FindUTXO_outputs_locked_and_in_chain_witness :
  FindUTXO ledger_bob "Eve" = [] /\ handleGetBalance ledger_bob "Eve" = 0%Z.
Proof.
  apply (proj2 (FindUTXO_outputs_locked_and_in_chain ledger_bob "Eve")).
  intros b tx out Hb Htx Hout.
  repeat (apply elem_of_cons in Hb as [-> | Hb]; [| ]);
    [| | apply elem_of_nil in Hb; contradiction].
  - apply elem_of_cons in Htx as [-> | Htx]; [| apply elem_of_nil in Htx; contradiction].
    apply elem_of_cons in Hout as [-> | Hout]; [discriminate |].
    apply elem_of_nil in Hout. contradiction.
  - apply elem_of_cons in Htx as [-> | Htx]; [| apply elem_of_nil in Htx; contradiction].
    apply elem_of_cons in Hout as [-> | Hout]; [discriminate |].
    apply elem_of_cons in Hout as [-> | Hout]; [discriminate |].
    apply elem_of_nil in Hout. contradiction.
Defined.

Section SenderOutputs.
Context `{GobEncoder}.

(** X14: a transfer that [NewUTXOTransaction] returns only takes what is
    locked to the sender: each of its inputs is unlocked by [from] and names,
    by transaction id and a non-negative index, an output locked to [from]
    of a transaction that stands in a block of the ledger. *)
Theorem transfer_spends_outputs_of_sender
    (range : range_order) (from to : string) (amount : Z) (bc : Blockchain)
    (tx : Transaction) :
  NewUTXOTransaction range from to amount bc = Ok tx ->
  Forall (fun i =>
            ScriptSig i = from
            /\ exists b tx' out,
                 b ∈ blocks bc /\ tx' ∈ Transactions b
                 /\ ID tx' = Txid i
                 /\ (0 <= VoutIdx i)%Z
                 /\ Vout tx' !! Z.to_nat (VoutIdx i) = Some out
                 /\ ScriptPubKey out = from)
         (Vin tx).
Proof.
  intros Hok.
  eapply Forall_impl; [exact (NewUTXOTransaction_inputs_selected _ _ _ _ _ _ Hok) |].
  intros i (Hsig & tx' & out & Hlisted & Hid & Hpos & Hout & Hlock).
  split; [exact Hsig |].
  apply FindUnspentTransactions_in_chain in Hlisted as (b & Hb & Htx').
  exists b, tx', out. repeat (split; [assumption |]). assumption.
Qed.
End SenderOutputs.

Lemma transfer_spends_outputs_of_sender_witness :
  Forall (fun i =>
            ScriptSig i = "Ivan"
            /\ exists b tx' out,
                 b ∈ blocks ledger0 /\ tx' ∈ Transactions b
                 /\ ID tx' = Txid i
                 /\ (0 <= VoutIdx i)%Z
                 /\ Vout tx' !! Z.to_nat (VoutIdx i) = Some out
                 /\ ScriptPubKey out = "Ivan")
         (Vin tx_bob).
Proof.
  apply (@transfer_spends_outputs_of_sender demo_gob demo_range "Ivan" "Bob" 3%Z
           ledger0 tx_bob).
  vm_compute. reflexivity.
Defined.

(** ** The block without transactions *)

Lemma scanned_stops (newer : list Block) (b : Block) (older : list Block) :
  Transactions b = [] -> scanned (newer ++ b :: older) = scanned newer.
Proof.
  intros Hempty. induction newer as [| b0 newer IH]; cbn [app scanned].
  - rewrite Hempty. reflexivity.
  - destruct (length (Transactions b0) =? 0)%nat; [reflexivity |]. rewrite IH. reflexivity.
Qed.

(** X18: a block without transactions hides what is before it: the scan
    stops there, so the unspent transactions, the spendable outputs and the
    balance of every address are those of the blocks after it alone. *)
Theorem empty_block_hides_older_blocks
    (older newer : list Block) (b : Block) (address : string) (amount : Z) :
  Transactions b = [] ->
  FindUnspentTransactions (mkBlockchain (older ++ b :: newer)) address
  = FindUnspentTransactions (mkBlockchain newer) address
  /\ FindSpendableOutputs (mkBlockchain (older ++ b :: newer)) address amount
     = FindSpendableOutputs (mkBlockchain newer) address amount
  /\ handleGetBalance (mkBlockchain (older ++ b :: newer)) address
     = handleGetBalance (mkBlockchain newer) address.
Proof.
  intros Hempty.
  assert (FindUnspentTransactions (mkBlockchain (older ++ b :: newer)) address
          = FindUnspentTransactions (mkBlockchain newer) address) as Hfut.
  { rewrite !FindUnspentTransactions_listing. unfold scanned_transactions.
    cbn [blocks]. rewrite rev_app_distr. cbn [rev]. rewrite <- app_assoc. cbn [app].
    rewrite (scanned_stops (rev newer) b (rev older) Hempty). reflexivity. }
  split; [exact Hfut |].
  unfold FindSpendableOutputs, handleGetBalance, FindUTXO. rewrite Hfut. auto.
Qed.

(** The genesis block pays 10 to Ivan; after a block without transactions
    his balance is 0. *)
Lemma empty_block_hides_older_blocks_witness :
  FindUnspentTransactions (mkBlockchain ([genesis0] ++ zero_Block :: [])) "Ivan"
  = FindUnspentTransactions (mkBlockchain []) "Ivan"
  /\ FindSpendableOutputs (mkBlockchain ([genesis0] ++ zero_Block :: [])) "Ivan" 5
     = FindSpendableOutputs (mkBlockchain []) "Ivan" 5
  /\ handleGetBalance (mkBlockchain ([genesis0] ++ zero_Block :: [])) "Ivan"
     = handleGetBalance (mkBlockchain []) "Ivan".
Proof.
  apply (empty_block_hides_older_blocks [genesis0] [] zero_Block "Ivan" 5%Z).
  reflexivity.
Defined.

(** ** Funds and balance *)

Lemma accumulate_done amount outs acc :
  (amount <= acc)%Z -> accumulate amount outs acc = acc.
Proof.
  intros Hge. destruct outs as [| out rest]; [reflexivity |]. cbn [accumulate].
  destruct (Z.ltb_spec acc amount); [lia | reflexivity].
Qed.

Lemma accumulate_app amount outs1 :
  forall outs2 acc,
    accumulate amount (outs1 ++ outs2) acc
    = accumulate amount outs2 (accumulate amount outs1 acc).
Proof.
  induction outs1 as [| out rest IH]; intros outs2 acc; [reflexivity |].
  cbn [app accumulate]. destruct (Z.ltb_spec acc amount) as [Hlt | Hge]; [apply IH |].
  rewrite accumulate_done by exact Hge. reflexivity.
Qed.

Lemma spend_outputs_accumulates address amount txid outs :
  forall idx acc sel,
    fst (loop_state (spend_outputs address amount txid idx outs (acc, sel)))
    = accumulate amount
        (filter (fun out => CanBeUnlockedWith out address = true) outs) acc
    /\ (forall r, spend_outputs address amount txid idx outs (acc, sel) = Return r ->
          (amount <= fst r)%Z).
Proof.
  induction outs as [| out rest IH]; intros idx acc sel.
  - split; [reflexivity | discriminate].
  - cbn [spend_outputs]. rewrite filter_cons.
    destruct (CanBeUnlockedWith out address) eqn:Hlock; cbn [andb].
    + rewrite decide_True by reflexivity. cbn [accumulate].
      destruct (Z.ltb_spec acc amount) as [Hlt | Hge].
      * destruct (Z.geb_spec (add_int acc (Value out)) amount) as [Hdone | Hmore].
        -- cbn [loop_state fst]. rewrite accumulate_done by lia.
           split; [reflexivity |]. intros r [= <-]. cbn. lia.
        -- apply IH.
      * destruct (IH (idx + 1)%Z acc sel) as [Hacc Hret].
        rewrite Hacc, accumulate_done by exact Hge. split; [reflexivity | exact Hret].
    + rewrite decide_False by congruence. apply IH.
Qed.

Lemma spend_txs_accumulates address amount txs :
  forall acc sel,
    fst (spend_txs address amount txs (acc, sel))
    = accumulate amount
        (flat_map (fun tx => filter (fun out => CanBeUnlockedWith out address = true)
                                    (Vout tx)) txs) acc.
Proof.
  induction txs as [| tx rest IH]; intros acc sel; [reflexivity |].
  cbn [spend_txs flat_map]. rewrite accumulate_app.
  destruct (spend_outputs_accumulates address amount (ID tx) (Vout tx) 0%Z acc sel)
    as [Hacc Hret].
  destruct (spend_outputs address amount (ID tx) 0 (Vout tx) (acc, sel))
    as [[acc' sel'] | r] eqn:Hrun; cbn [loop_state fst] in Hacc.
  - rewrite IH, <- Hacc. reflexivity.
  - rewrite <- Hacc. rewrite accumulate_done by (apply Hret; reflexivity). reflexivity.
Qed.

Lemma FindSpendableOutputs_accumulates bc address amount :
  fst (FindSpendableOutputs bc address amount)
  = accumulate amount (FindUTXO bc address) 0%Z.
Proof. apply spend_txs_accumulates. Qed.

Lemma accumulate_short amount outs :
  forall acc,
    (accumulate amount outs acc < amount)%Z ->
    accumulate amount outs acc
    = fold_left (fun balance out => add_int balance (Value out)) outs acc.
Proof.
  induction outs as [| out rest IH]; intros acc Hshort; [reflexivity |].
  cbn [accumulate fold_left] in *.
  destruct (Z.ltb_spec acc amount) as [Hlt | Hge]; [apply IH; exact Hshort | lia].
Qed.

Lemma accumulate_bounds amount outs :
  forall acc,
    (0 <= acc)%Z ->
    Forall (fun out => (0 <= Value out)%Z) outs ->
    (acc + total_value outs < 2 ^ 63)%Z ->
    (acc <= accumulate amount outs acc <= acc + total_value outs)%Z
    /\ fold_left (fun balance out => add_int balance (Value out)) outs acc
       = (acc + total_value outs)%Z.
Proof.
  induction outs as [| out rest IH]; intros acc Hacc Hpos Hsum.
  - cbn. lia.
  - apply Forall_cons in Hpos as [Hout Hrest]. cbn [total_value fold_right] in *.
    fold (total_value rest) in *.
    assert (0 <= total_value rest)%Z as Htot.
    { clear - Hrest. induction Hrest as [| o l Ho _ IHl]; cbn; [lia |].
      fold (total_value l). lia. }
    assert (add_int acc (Value out) = (acc + Value out)%Z) as Hadd
      by (apply wrap_int_id; unfold is_int; lia).
    cbn [accumulate fold_left]. rewrite Hadd.
    destruct (IH (acc + Value out)%Z ltac:(lia) Hrest ltac:(lia)) as [Hb Hf].
    split; [| rewrite Hf; lia].
    destruct (Z.ltb_spec acc amount); lia.
Qed.

Section Funds.
Context `{GobEncoder}.

(** X19: when [NewUTXOTransaction] fails, the balance that
    [handleGetBalance] reports for the sender is below the amount, and it is
    the value that [FindSpendableOutputs] has accumulated. *)
Theorem funds_error_means_balance_below_amount
    (range : range_order) (from to : string) (amount : Z) (bc : Blockchain)
    (e : string) :
  NewUTXOTransaction range from to amount bc = Err e ->
  (handleGetBalance bc from < amount)%Z
  /\ fst (FindSpendableOutputs bc from amount) = handleGetBalance bc from.
Proof.
  unfold NewUTXOTransaction.
  destruct (FindSpendableOutputs bc from amount) as [acc sel] eqn:Hfso.
  destruct (Z.ltb_spec acc amount) as [Hlt | _]; [intros _ | discriminate].
  pose proof (FindSpendableOutputs_accumulates bc from amount) as Hacc.
  rewrite Hfso in Hacc. cbn [fst] in *. subst acc.
  unfold handleGetBalance.
  rewrite <- (accumulate_short amount (FindUTXO bc from) 0%Z Hlt). lia.
Qed.

(** X20: when the outputs counted for the sender have non-negative values
    whose sum is in the range of an [int], [NewUTXOTransaction] fails
    exactly when the balance that [handleGetBalance] reports for the sender
    is below the amount. *)
Theorem funds_error_iff_balance_below_amount
    (range : range_order) (from to : string) (amount : Z) (bc : Blockchain) :
  Forall (fun out => (0 <= Value out)%Z) (FindUTXO bc from) ->
  (total_value (FindUTXO bc from) < 2 ^ 63)%Z ->
  (exists e, NewUTXOTransaction range from to amount bc = Err e)
  <-> (handleGetBalance bc from < amount)%Z.
Proof.
  intros Hpos Hsum.
  destruct (accumulate_bounds amount (FindUTXO bc from) 0%Z ltac:(lia) Hpos ltac:(lia))
    as [Hbounds Hfold].
  pose proof (FindSpendableOutputs_accumulates bc from amount) as Hacc.
  unfold handleGetBalance. rewrite Hfold.
  unfold NewUTXOTransaction.
  destruct (FindSpendableOutputs bc from amount) as [acc sel]. cbn [fst] in Hacc.
  destruct (Z.ltb_spec acc amount) as [Hlt | Hge].
  - split; [intros _ | eauto].
    rewrite Hacc in Hlt. rewrite (accumulate_short _ _ _ Hlt) in Hlt.
    rewrite Hfold in Hlt. exact Hlt.
  - split; [intros [e He]; discriminate | lia].
Qed.
End Funds.

Lemma funds_error_means_balance_below_amount_witness :
  (handleGetBalance ledger0 "Ivan" < 11)%Z
  /\ fst (FindSpendableOutputs ledger0 "Ivan" 11) = handleGetBalance ledger0 "Ivan".
Proof.
  apply (@funds_error_means_balance_below_amount demo_gob demo_range "Ivan" "Bob"
           11%Z ledger0 "ERROR: Not enough funds").
  vm_compute. reflexivity.
Defined.

Lemma funds_error_iff_balance_below_amount_witness :
  (exists e, NewUTXOTransaction (H := demo_gob) demo_range "Ivan" "Bob" 11 ledger_self
             = Err e)
  <-> (handleGetBalance ledger_self "Ivan" < 11)%Z.
Proof.
  apply (@funds_error_iff_balance_below_amount demo_gob demo_range "Ivan" "Bob"
           11%Z ledger_self).
  - vm_compute. repeat constructor; discriminate.
  - vm_compute. reflexivity.
Defined.

(** X21: [FindSpendableOutputs] stops at the first output that brings the
    accumulated value to the amount: when it returns a value that has
    reached a positive amount, that value is the sum of a beginning of the
    outputs that [FindUTXO] returns, and without the last of them the sum is
    below the amount. *)
Theorem FindSpendableOutputs_stops_at_amount
    (bc : Blockchain) (address : string) (amount : Z) :
  (0 < amount)%Z ->
  (amount <= fst (FindSpendableOutputs bc address amount))%Z ->
  exists pre out post,
    FindUTXO bc address = pre ++ out :: post
    /\ (fold_left (fun balance o => add_int balance (Value o)) pre 0%Z < amount)%Z
    /\ fst (FindSpendableOutputs bc address amount)
       = add_int (fold_left (fun balance o => add_int balance (Value o)) pre 0%Z)
                 (Value out).
Proof.
  rewrite FindSpendableOutputs_accumulates. intros Hpos.
  assert (forall outs acc,
            (acc < amount)%Z ->
            (amount <= accumulate amount outs acc)%Z ->
            exists pre out post,
              outs = pre ++ out :: post
              /\ (fold_left (fun balance o => add_int balance (Value o)) pre acc
                  < amount)%Z
              /\ accumulate amount outs acc
                 = add_int (fold_left (fun balance o => add_int balance (Value o))
                                      pre acc) (Value out)) as Hgen.
  { induction outs as [| out rest IH]; intros acc Hlt Hge; cbn [accumulate] in *;
      [lia |].
    destruct (Z.ltb_spec acc amount) as [_ | Hno]; [| lia].
    destruct (Z.lt_ge_cases (add_int acc (Value out)) amount) as [Hless | Hdone].
    - destruct (IH _ Hless Hge) as (pre & o & post & -> & Hpre & Hacc).
      exists (out :: pre), o, post. cbn [app fold_left]. auto.
    - exists [], out, rest. cbn [app fold_left].
      rewrite accumulate_done by exact Hdone. auto. }
  apply Hgen. exact Hpos.
Qed.

Lemma FindSpendableOutputs_stops_at_amount_witness :
  exists pre out post,
    FindUTXO ledger_self "Ivan" = pre ++ out :: post
    /\ (fold_left (fun balance o => add_int balance (Value o)) pre 0%Z < 5)%Z
    /\ fst (FindSpendableOutputs ledger_self "Ivan" 5)
       = add_int (fold_left (fun balance o => add_int balance (Value o)) pre 0%Z)
                 (Value out).
Proof.
  apply (FindSpendableOutputs_stops_at_amount ledger_self "Ivan" 5%Z).
  - lia.
  - vm_compute. discriminate.
Defined.

(** ** Balances on the first ledgers *)

Lemma ints_at_empty k : ints_at ∅ k = [].
Proof. unfold ints_at. rewrite lookup_empty. reflexivity. Qed.

Section FirstLedgers.
Context `{GobEncoder}.

Lemma genesis_FindUnspentTransactions now address :
  FindUnspentTransactions (NewBlockchain now) address
  = if String.eqb "Ivan" address
    then [NewCoinbaseTX "Ivan" genesisCoinbaseData] else [].
Proof.
  unfold FindUnspentTransactions, NewBlockchain, NewGenesisBlock.
  cbn [blocks rev app scan_blocks Transactions length Nat.eqb fold_left fst].
  unfold scan_tx.
  change (IsCoinbase (NewCoinbaseTX "Ivan" genesisCoinbaseData)) with true.
  cbn [negb]. rewrite ints_at_empty.
  change (Vout (NewCoinbaseTX "Ivan" genesisCoinbaseData))
    with [mkTXOutput subsidy "Ivan"].
  cbn [scan_outputs existsb fst app]. unfold CanBeUnlockedWith. cbn [ScriptPubKey].
  destruct (String.eqb "Ivan" address); reflexivity.
Qed.

(** X8: on the ledger at start-up, whatever the clock and the encoder, the
    balance of Ivan is the subsidy and the balance of every other address
    is 0. *)
Theorem balance_on_genesis_ledger (now address : string) :
  handleGetBalance (NewBlockchain now) address
  = if String.eqb address "Ivan" then subsidy else 0%Z.
Proof.
  unfold handleGetBalance, FindUTXO. rewrite genesis_FindUnspentTransactions.
  rewrite (String.eqb_sym address "Ivan").
  destruct (String.eqb "Ivan" address) eqn:Heq; [| reflexivity].
  cbn [flat_map].
  change (Vout (NewCoinbaseTX "Ivan" genesisCoinbaseData))
    with [mkTXOutput subsidy "Ivan"].
  rewrite filter_cons, filter_nil.
  rewrite decide_True by exact Heq. reflexivity.
Qed.

Lemma genesis_FindSpendableOutputs now a :
  (0 < a <= 10)%Z ->
  FindSpendableOutputs (NewBlockchain now) "Ivan" a
  = (10%Z, {[ ID (NewCoinbaseTX "Ivan" genesisCoinbaseData) := [0%Z] ]}).
Proof.
  intros Ha. unfold FindSpendableOutputs. rewrite genesis_FindUnspentTransactions.
  change (String.eqb "Ivan" "Ivan") with true. cbn [spend_txs].
  change (Vout (NewCoinbaseTX "Ivan" genesisCoinbaseData))
    with [mkTXOutput subsidy "Ivan"].
  cbn [spend_outputs]. unfold CanBeUnlockedWith. cbn [ScriptPubKey Value].
  change (String.eqb "Ivan" "Ivan") with true. cbn [andb].
  destruct (Z.ltb_spec 0 a) as [_ | Hno]; [| lia].
  change (add_int 0 subsidy) with 10%Z.
  destruct (Z.geb_spec 10 a) as [_ | Hno]; [| lia].
  unfold push_int. rewrite ints_at_empty. cbn [app].
  rewrite insert_empty. reflexivity.
Qed.

Lemma range_of_singleton (range : range_order) k (v : list Z) :
  range {[ k := v ]} = [(k, v)].
Proof.
  apply Permutation_singleton_r.
  rewrite (range_of_perm range {[ k := v ]}), map_to_list_singleton. reflexivity.
Qed.

Lemma genesis_transfer now range to a :
  (0 < a <= 10)%Z ->
  NewUTXOTransaction range "Ivan" to a (NewBlockchain now)
  = Ok (SetID (mkTransaction ""
                 [mkTXInput (ID (NewCoinbaseTX "Ivan" genesisCoinbaseData)) 0 "Ivan"]
                 (mkTXOutput a to
                  :: if (10 >? a)%Z then [mkTXOutput (10 - a) "Ivan"] else []))).
Proof.
  intros Ha. unfold NewUTXOTransaction. rewrite (genesis_FindSpendableOutputs now a Ha).
  destruct (Z.ltb_spec 10 a) as [Hno | _]; [lia |].
  rewrite range_of_singleton. cbn [make_inputs flat_map map fst snd app].
  assert (sub_int 10 a = (10 - a)%Z) as -> by (apply wrap_int_id; unfold is_int; lia).
  destruct (10 >? a)%Z; reflexivity.
Qed.

(** The unspent transactions of the ledger made of a genesis block and a
    block whose one transaction spends the output of the coinbase. *)
Lemma second_block_FindUnspentTransactions now b tx address :
  Transactions b = [tx] ->
  Vin tx = [mkTXInput (ID (NewCoinbaseTX "Ivan" genesisCoinbaseData)) 0 "Ivan"] ->
  ID tx <> ID (NewCoinbaseTX "Ivan" genesisCoinbaseData) ->
  FindUnspentTransactions (mkBlockchain [NewGenesisBlock now; b]) address
  = scan_outputs address [] tx 0 (Vout tx) [].
Proof.
  intros Htxs Hvin Hid. unfold FindUnspentTransactions.
  cbn [blocks rev app scan_blocks]. rewrite Htxs.
  cbn [length Nat.eqb fold_left].
  change (Transactions (NewGenesisBlock now))
    with [NewCoinbaseTX "Ivan" genesisCoinbaseData].
  cbn [length Nat.eqb fold_left].
  unfold scan_tx at 2.
  assert (IsCoinbase tx = false) as -> by (unfold IsCoinbase; rewrite Hvin; apply andb_false_r).
  cbn [negb]. rewrite Hvin. cbn [mark_spent]. unfold CanUnlockOutputWith.
  cbn [ScriptSig Txid VoutIdx].
  set (cb := NewCoinbaseTX "Ivan" genesisCoinbaseData) in *.
  assert (ints_at (if String.eqb "Ivan" address then push_int ∅ (ID cb) 0 else ∅) (ID tx)
          = []) as Hnone.
  { destruct (String.eqb "Ivan" address); [| apply ints_at_empty].
    rewrite ints_at_push_int, decide_False by congruence. apply ints_at_empty. }
  rewrite Hnone. unfold scan_tx.
  change (IsCoinbase cb) with true. cbn [negb].
  change (Vout cb) with [mkTXOutput subsidy "Ivan"].
  cbn [scan_outputs]. unfold CanBeUnlockedWith at 1. cbn [ScriptPubKey].
  destruct (String.eqb "Ivan" address).
  - rewrite ints_at_push_int, decide_True by reflexivity. rewrite ints_at_empty.
    reflexivity.
  - rewrite ints_at_empty. reflexivity.
Qed.

Lemma handleWriteBlock_Created fuel now range m bc bc' newBlock tail :
  last (blocks bc) = Some tail ->
  handleWriteBlock fuel now range m bc = Some (bc', Created newBlock) ->
  exists tx,
    NewUTXOTransaction range (From m) (To m) (MsgValue m) bc = Ok tx
    /\ blocks bc' = blocks bc ++ [newBlock]
    /\ Timestamp newBlock = now
    /\ Transactions newBlock = [tx]
    /\ PrevHash newBlock = Hash tail
    /\ Hash newBlock = calculateHash newBlock
    /\ isHashValid (Hash newBlock) difficulty = true.
Proof.
  intros Htail. unfold handleWriteBlock, generateBlock. rewrite Htail.
  destruct (NewUTXOTransaction _ _ _ _ _) as [tx | e] eqn:Htx; [| discriminate].
  destruct (proof_of_work fuel 0 _) as [sealed |] eqn:Hpow; [| discriminate].
  apply proof_of_work_shape in Hpow as (j & -> & Hv).
  match goal with |- context [isBlockValid ?b tail] =>
    assert (isBlockValid b tail = true) as Hvalid
      by (apply isBlockValid_true; split; reflexivity)
  end.
  rewrite Hvalid. intros [= <- <-].
  exists tx. split; [reflexivity |].
  repeat (split; [reflexivity |]). exact Hv.
Qed.

(** X9: when Ivan, on the ledger at start-up, pays an amount between 1 and
    the subsidy to another address, and the new transaction's [ID] differs
    from the coinbase's, the balances afterwards are the amount for the
    recipient, the rest of the subsidy for Ivan and 0 for everyone else. *)
Theorem balances_after_first_transfer
    (fuel : nat) (now0 now : string) (range : range_order) (to : string) (a : Z)
    (bc' : Blockchain) (newBlock : Block) (tx : Transaction) :
  to <> "Ivan" ->
  (0 < a <= 10)%Z ->
  handleWriteBlock fuel now range (mkSendMessage "Ivan" to a) (NewBlockchain now0)
  = Some (bc', Created newBlock) ->
  Transactions newBlock = [tx] ->
  ID tx <> ID (NewCoinbaseTX "Ivan" genesisCoinbaseData) ->
  handleGetBalance bc' to = a
  /\ handleGetBalance bc' "Ivan" = (10 - a)%Z
  /\ (forall address, address <> to -> address <> "Ivan" ->
        handleGetBalance bc' address = 0%Z).
Proof.
  intros Hto Ha Hstep Htxs Hid.
  destruct (handleWriteBlock_Created fuel now range (mkSendMessage "Ivan" to a)
              (NewBlockchain now0) bc' newBlock (NewGenesisBlock now0) eq_refl Hstep)
    as (tx' & Hbuilt & Hblocks & _ & Htxs' & _).
  rewrite Htxs in Htxs'. injection Htxs' as <-.
  cbn [From To MsgValue] in Hbuilt. rewrite (genesis_transfer now0 range to a Ha) in Hbuilt.
  injection Hbuilt as Htx.
  assert (Vin tx = [mkTXInput (ID (NewCoinbaseTX "Ivan" genesisCoinbaseData)) 0 "Ivan"])
    as Hvin by (rewrite <- Htx; reflexivity).
  assert (Vout tx = mkTXOutput a to
                    :: if (10 >? a)%Z then [mkTXOutput (10 - a) "Ivan"] else [])
    as Hvout by (rewrite <- Htx; reflexivity).
  clear Htx.
  assert (bc' = mkBlockchain [NewGenesisBlock now0; newBlock]) as ->
    by (destruct bc' as [l]; cbn in Hblocks; rewrite Hblocks; reflexivity).
  assert (add_int 0 a = a) as Hadd_a by (apply wrap_int_id; unfold is_int; lia).
  assert (add_int 0 (10 - a) = (10 - a)%Z) as Hadd_r
    by (apply wrap_int_id; unfold is_int; lia).
  assert (forall address,
            handleGetBalance (mkBlockchain [NewGenesisBlock now0; newBlock]) address
            = if String.eqb to address then a
              else if String.eqb "Ivan" address then (10 - a)%Z else 0%Z) as Hbal.
  { intros address. unfold handleGetBalance, FindUTXO.
    rewrite (second_block_FindUnspentTransactions now0 newBlock tx address Htxs Hvin Hid).
    destruct (String.eqb_spec to address) as [E1 | E1];
      destruct (String.eqb_spec "Ivan" address) as [E2 | E2];
      [congruence | | |].
    all: destruct (Z.gtb_spec 10 a) as [Hgt | Hgt]; rewrite Hvout.
    all: cbn [scan_outputs existsb]; unfold CanBeUnlockedWith; cbn [ScriptPubKey].
    all: repeat match goal with
           | |- context [String.eqb ?x ?y] =>
               first [ rewrite (proj2 (String.eqb_eq x y)) by congruence
                     | rewrite (proj2 (String.eqb_neq x y)) by congruence ]
           end.
    all: cbn [app flat_map]; rewrite ?Hvout.
    all: repeat match goal with
           | |- context [Z.gtb 10 ?x] =>
               first [ rewrite (proj2 (Z.gtb_lt 10 x)) by lia
                     | replace (10 >? x)%Z with false
                         by (symmetry; rewrite Z.gtb_ltb; apply Z.ltb_ge; lia) ]
           end.
    all: rewrite ?filter_cons, ?filter_nil; cbn [ScriptPubKey].
    all: repeat match goal with
           | |- context [String.eqb ?x ?y] =>
               first [ rewrite (proj2 (String.eqb_eq x y)) by congruence
                     | rewrite (proj2 (String.eqb_neq x y)) by congruence ]
           end.
    all: repeat first [ rewrite (decide_True (P := true = true)) by reflexivity
                      | rewrite (decide_False (P := false = true)) by discriminate ].
    all: cbn [app fold_left Value]; rewrite ?Hadd_a, ?Hadd_r; lia. }
  rewrite (Hbal to), (Hbal "Ivan"), String.eqb_refl.
  assert (String.eqb to "Ivan" = false) as -> by (apply String.eqb_neq; exact Hto).
  change (String.eqb "Ivan" "Ivan") with true.
  split; [reflexivity |]. split; [reflexivity |].
  intros address H1 H2. rewrite Hbal.
  assert (String.eqb to address = false) as -> by (apply String.eqb_neq; congruence).
  assert (String.eqb "Ivan" address = false) as -> by (apply String.eqb_neq; congruence).
  reflexivity.
Qed.
End FirstLedgers.

Lemma balances_after_first_transfer_witness :
  handleGetBalance ledger_bob "Bob" = 3%Z
  /\ handleGetBalance ledger_bob "Ivan" = (10 - 3)%Z
  /\ (forall address, address <> "Bob" -> address <> "Ivan" ->
        handleGetBalance ledger_bob address = 0%Z).
Proof.
  apply (@balances_after_first_transfer demo_gob 8 now0 now_bob demo_range "Bob" 3%Z
           ledger_bob block_bob tx_bob).
  - discriminate.
  - lia.
  - vm_compute. reflexivity.
  - reflexivity.
  - vm_compute. discriminate.
Defined.

(** ** Requests served at the same time, in general *)

Section BothAppend.
Context `{GobEncoder}.

Lemma generateBlock_links fuel now range bc oldBlock m newBlock :
  generateBlock fuel now range bc oldBlock m = Some (Ok newBlock) ->
  PrevHash newBlock = Hash oldBlock /\ calculateHash newBlock = Hash newBlock.
Proof.
  unfold generateBlock.
  destruct (NewUTXOTransaction _ _ _ _ _) as [tx | e]; [| discriminate].
  destruct (proof_of_work fuel 0 _) as [b |] eqn:Hpow; [| discriminate].
  intros [= ->]. apply proof_of_work_shape in Hpow as (j & -> & _).
  split; reflexivity.
Qed.

(** X10: two write requests that generate their blocks from the same last
    block can both be appended: each passes the check before the other is
    appended, since the check is made outside the lock of [AddBlock].  The
    second block then carries the hash of the old last block, so the chain
    is not linked unless the first block has that same hash. *)
Theorem interleaved_requests_both_append
    (s : server) (tail : Block)
    (fuelA : nat) (nowA : string) (rangeA : range_order) (mA : SendMessage) (bA : Block)
    (fuelB : nat) (nowB : string) (rangeB : range_order) (mB : SendMessage) (bB : Block) :
  interleaved_reachable s ->
  last (blocks (ledger s)) = Some tail ->
  generateBlock fuelA nowA rangeA (ledger s) tail mA = Some (Ok bA) ->
  generateBlock fuelB nowB rangeB (ledger s) tail mB = Some (Ok bB) ->
  interleaved_reachable
    (mkServer (mkBlockchain (blocks (ledger s) ++ [bA; bB])) (in_flight s))
  /\ PrevHash bB = Hash tail
  /\ (Hash bA <> Hash tail -> ~ linked (blocks (ledger s) ++ [bA; bB])).
Proof.
  intros Hreach Htail HgenA HgenB.
  destruct (generateBlock_links _ _ _ _ _ _ _ HgenA) as [HprevA HhashA].
  destruct (generateBlock_links _ _ _ _ _ _ _ HgenB) as [HprevB HhashB].
  assert (isBlockValid bA tail = true) as HvalidA by (apply isBlockValid_true; auto).
  assert (isBlockValid bB tail = true) as HvalidB by (apply isBlockValid_true; auto).
  split; [| split; [exact HprevB |]].
  - set (fl := in_flight s).
    pose (s1 := mkServer (ledger s) (Generated bA :: fl)).
    pose (s2 := mkServer (ledger s) (Generated bB :: Generated bA :: fl)).
    pose (s3 := mkServer (ledger s) (Generated bB :: Checked bA :: fl)).
    pose (s4 := mkServer (ledger s) (Checked bB :: Checked bA :: fl)).
    pose (s5 := mkServer (AddBlock (ledger s) bA) (Checked bB :: fl)).
    assert (interleaved_reachable s1) as H1.
    { apply (ireach_step s); [exact Hreach |].
      exact (step_generate s fuelA nowA rangeA mA tail bA Htail HgenA). }
    assert (interleaved_reachable s2) as H2.
    { apply (ireach_step s1); [exact H1 |].
      exact (step_generate s1 fuelB nowB rangeB mB tail bB Htail HgenB). }
    assert (interleaved_reachable s3) as H3.
    { apply (ireach_step s2); [exact H2 |].
      pose proof (step_check s2 [Generated bB] fl bA tail eq_refl Htail) as Hstep.
      rewrite HvalidA in Hstep. exact Hstep. }
    assert (interleaved_reachable s4) as H4.
    { apply (ireach_step s3); [exact H3 |].
      pose proof (step_check s3 [] (Checked bA :: fl) bB tail eq_refl Htail) as Hstep.
      rewrite HvalidB in Hstep. exact Hstep. }
    assert (interleaved_reachable s5) as H5.
    { apply (ireach_step s4); [exact H4 |].
      exact (step_append s4 [Checked bB] fl bA eq_refl). }
    apply (ireach_step s5); [exact H5 |].
    replace (mkServer (mkBlockchain (blocks (ledger s) ++ [bA; bB])) fl)
      with (mkServer (AddBlock (ledger s5) bB) ([] ++ fl)).
    + exact (step_append s5 [] fl bB eq_refl).
    + unfold s5, AddBlock. cbn [ledger blocks]. rewrite <- app_assoc. reflexivity.
  - intros Hne Hlinked.
    destruct (Hlinked (length (blocks (ledger s))) bB bA) as [Hprev _].
    + rewrite lookup_app_r by lia.
      replace (S (length (blocks (ledger s))) - length (blocks (ledger s)))%nat
        with 1%nat by lia. reflexivity.
    + rewrite lookup_app_r by lia. rewrite Nat.sub_diag. reflexivity.
    + congruence.
Qed.
End BothAppend.

Lemma interleaved_requests_both_append_witness :
  @interleaved_reachable demo_gob
    (mkServer (mkBlockchain (blocks ledger0 ++ [block_bob; block_self])) [])
  /\ PrevHash block_self = Hash genesis0
  /\ (Hash block_bob <> Hash genesis0 ->
      ~ linked (blocks ledger0 ++ [block_bob; block_self])).
Proof.
  apply (@interleaved_requests_both_append demo_gob (mkServer ledger0 []) genesis0
           8 now_bob demo_range (mkSendMessage "Ivan" "Bob" 3) block_bob
           8 now_self demo_range (mkSendMessage "Ivan" "Ivan" 3) block_self).
  - apply ireach_init.
  - vm_compute. reflexivity.
  - vm_compute. reflexivity.
  - vm_compute. reflexivity.
Defined.

(** ** Value in a transfer, and minting *)

Section Minting.
Context `{GobEncoder}.

Lemma transfer_not_coinbase range from to amount bc tx :
  NewUTXOTransaction range from to amount bc = Ok tx -> IsCoinbase tx = false.
Proof.
  intros Hok.
  pose proof (NewUTXOTransaction_inputs_selected range from to amount bc tx Hok) as Hall.
  unfold IsCoinbase. destruct (Vin tx) as [| i [| i' rest]]; [reflexivity | | reflexivity].
  apply Forall_cons in Hall as [(_ & _ & _ & _ & _ & Hpos & _) _].
  destruct (Z.eqb_spec (VoutIdx i) (-1)) as [Heq | _]; [lia |].
  apply andb_false_r.
Qed.

(** X22: the outputs of a transfer add up to the value accumulated from the
    outputs it spends: nothing is created or lost between the two (for every
    amount but the least [int], whose negation is itself). *)
Theorem transfer_outputs_sum_to_accumulated
    (range : range_order) (from to : string) (amount : Z) (bc : Blockchain)
    (tx : Transaction) :
  (- 2 ^ 63 < amount)%Z ->
  NewUTXOTransaction range from to amount bc = Ok tx ->
  total_value (Vout tx) = fst (FindSpendableOutputs bc from amount).
Proof.
  intros Hmin Hok.
  destruct (FindSpendableOutputs bc from amount) as [acc sel] eqn:Hfso.
  destruct (NewUTXOTransaction_Ok _ _ _ _ _ _ _ _ Hfso Hok) as [Hge ->].
  pose proof (FindSpendableOutputs_int bc from amount) as Hint.
  rewrite Hfso in Hint. cbn [fst SetID Vout] in *.
  destruct (Z.gtb_spec acc amount) as [Hgt | Hle]; cbn [total_value fold_right Value];
    [| lia].
  assert (sub_int acc amount = (acc - amount)%Z) as ->; [| lia].
  apply wrap_int_id. unfold is_int in *.
  destruct (Z.le_gt_cases amount 0) as [Hneg | Hpos]; [| lia].
  rewrite (FindSpendableOutputs_nonpositive bc from amount Hneg) in Hfso.
  injection Hfso as <- _. lia.
Qed.

Lemma handleWriteBlock_step fuel now range m bc bc' resp :
  handleWriteBlock fuel now range m bc = Some (bc', resp) ->
  bc' = bc
  \/ exists tx newBlock,
       NewUTXOTransaction range (From m) (To m) (MsgValue m) bc = Ok tx
       /\ blocks bc' = blocks bc ++ [newBlock]
       /\ Transactions newBlock = [tx].
Proof.
  unfold handleWriteBlock, generateBlock.
  destruct (last (blocks bc)) as [tail |]; [| intros [= <- _]; auto].
  destruct (NewUTXOTransaction _ _ _ _ _) as [tx | e] eqn:Htx; [| intros [= <- _]; auto].
  destruct (proof_of_work fuel 0 _) as [sealed |] eqn:Hpow; [| discriminate].
  apply proof_of_work_shape in Hpow as (j & -> & _).
  match goal with |- context [isBlockValid ?b tail] => destruct (isBlockValid b tail) end;
    intros [= <- _]; [| auto].
  right. eexists. eexists. split; [reflexivity |]. split; reflexivity.
Qed.

(** X23: in a ledger of the program the only coinbase is the one of the
    genesis block: every later block holds exactly one transaction, and that
    transaction is not a coinbase and has an [ID] of 64 characters. *)
Theorem reachable_no_coinbase_after_genesis (bc : Blockchain) (i : nat) (b : Block) :
  reachable bc ->
  (0 < i)%nat ->
  blocks bc !! i = Some b ->
  exists tx,
    Transactions b = [tx] /\ IsCoinbase tx = false /\ String.length (ID tx) = 64%nat.
Proof.
  intros Hreach. revert i b.
  induction Hreach as [now | bc bc' fuel now range m resp _ IH Hstep]; intros i b Hi Hb.
  - destruct i as [| i]; [lia |]. cbn in Hb. discriminate.
  - apply handleWriteBlock_step in Hstep
      as [-> | (tx & newBlock & Hbuilt & Hblocks & Htxs)]; [exact (IH i b Hi Hb) |].
    rewrite Hblocks in Hb.
    destruct (decide (i < length (blocks bc))%nat) as [Hlt | Hge].
    + rewrite lookup_app_l in Hb by exact Hlt. exact (IH i b Hi Hb).
    + rewrite lookup_app_r in Hb by lia.
      destruct (i - length (blocks bc))%nat as [| k]; [| destruct k; discriminate].
      injection Hb as <-. exists tx. split; [exact Htxs |].
      split; [exact (transfer_not_coinbase _ _ _ _ _ _ Hbuilt) |].
      destruct (FindSpendableOutputs bc (From m) (MsgValue m)) as [acc sel] eqn:Hfso.
      destruct (NewUTXOTransaction_Ok _ _ _ _ _ _ _ _ Hfso Hbuilt) as [_ ->].
      cbn [SetID ID]. rewrite EncodeToString_length, Sum256_length. reflexivity.
Qed.
End Minting.

Lemma transfer_outputs_sum_to_accumulated_witness :
  total_value (Vout tx_bob) = fst (FindSpendableOutputs ledger0 "Ivan" 3).
Proof.
  apply (@transfer_outputs_sum_to_accumulated demo_gob demo_range "Ivan" "Bob" 3%Z
           ledger0 tx_bob).
  - vm_compute. reflexivity.
  - vm_compute. reflexivity.
Defined.

Lemma reachable_no_coinbase_after_genesis_witness :
  exists tx,
    Transactions block_spent = [tx] /\ IsCoinbase tx = false
    /\ String.length (ID tx) = 64%nat.
Proof.
  apply (@reachable_no_coinbase_after_genesis demo_gob ledger_spent 2 block_spent).
  - exact ledger_spent_reachable.
  - lia.
  - reflexivity.
Defined.

Example Itoa_samples :
  (Itoa 0, Itoa 7, Itoa 89, Itoa 1200, Itoa (-45), Itoa (2 ^ 63 - 1), Itoa (- 2 ^ 63))
  = ("0", "7", "89", "1200", "-45", "9223372036854775807", "-9223372036854775808").
Proof. vm_compute. reflexivity. Qed.

Example ValueChain_the_run :
  map (fun b => (ValueChain.Value b, ValueChain.Nonce b, ValueChain.Hash b,
                 ValueChain.PrevHash b))
      (ValueChain.blocks ValueChain.chain1)
  = [(0%Z, "", "5feceb66ffc86f38d952786c6d696c79c2dbc239dd4e91b46729d73a27fb57e9", "");
     (89%Z, "1", "0000008c354fa7568ed75d82348a721e8144af012c5d7931adadb70cb88aed4d",
      "5feceb66ffc86f38d952786c6d696c79c2dbc239dd4e91b46729d73a27fb57e9")].
Proof. vm_compute. reflexivity. Qed.

(** ** The earlier program *)

Section ValueChainFacts.
Import ValueChain.


Lemma value_proof_of_work_shape (fuel : nat) :
  forall (i : Z) (b sealed : Block),
    proof_of_work fuel i b = Some sealed ->
    exists j : Z,
      sealed = set_Hash (set_Nonce b (Sprintf_x j))
                        (calculateHash (set_Nonce b (Sprintf_x j)))
      /\ isHashValid (calculateHash (set_Nonce b (Sprintf_x j))) difficulty = true.
Proof.
  induction fuel as [| fuel IH]; intros i b sealed Hrun; [discriminate |].
  cbn [proof_of_work] in Hrun.
  destruct (isHashValid (calculateHash (set_Nonce b (Sprintf_x i))) difficulty) eqn:Hv;
    cbn [negb] in Hrun.
  - injection Hrun as <-. exists i. split; [reflexivity | exact Hv].
  - apply IH in Hrun as (j & -> & Hj). exists j. split; [reflexivity | exact Hj].
Qed.


Lemma value_handleWriteBlock_step fuel now m bc bc' resp :
  handleWriteBlock fuel now m bc = Some (bc', resp) ->
  bc' = bc
  \/ exists tail newBlock,
       last (blocks bc) = Some tail
       /\ blocks bc' = blocks bc ++ [newBlock]
       /\ PrevHash newBlock = Hash tail
       /\ Hash newBlock = calculateHash newBlock
       /\ isHashValid (Hash newBlock) difficulty = true.
Proof.
  unfold handleWriteBlock, generateBlock.
  destruct (last (blocks bc)) as [tail |]; [| intros [= <- _]; auto].
  destruct (proof_of_work fuel 0 _) as [sealed |] eqn:Hpow; [| discriminate].
  apply value_proof_of_work_shape in Hpow as (j & -> & Hv).
  match goal with |- context [isBlockValid ?b tail] => destruct (isBlockValid b tail) end;
    intros [= <- _]; [| auto].
  right. exists tail. eexists. split; [reflexivity |].
  repeat (split; [reflexivity |]). exact Hv.
Qed.

(** X25: in every ledger the earlier program comes to hold when its write
    requests are served one after the other ([reachable]: each request
    runs from start to end before the next begins), each block after the
    genesis block carries the hash of the block before it, stores the hash
    of its own fields, and that hash starts with six characters 0. *)
Theorem value_reachable_linked_and_sealed (bc : Blockchain) (i : nat) (b p : Block) :
  reachable bc ->
  (0 < i)%nat ->
  blocks bc !! i = Some b ->
  blocks bc !! (i - 1)%nat = Some p ->
  PrevHash b = Hash p
  /\ calculateHash b = Hash b
  /\ (forall k, (k < 6)%nat -> String.get k (Hash b) = Some "0"%char).
Proof.
  intros Hreach. revert i b p.
  induction Hreach as [now | bc bc' fuel now m resp _ IH Hstep]; intros i b p Hi Hb Hp.
  - destruct i as [| i]; [lia |]. cbn in Hb. discriminate.
  - apply value_handleWriteBlock_step in Hstep
      as [-> | (tail & newBlock & Htail & Hblocks & Hprev & Hhash & Hv)];
      [exact (IH i b p Hi Hb Hp) |].
    rewrite Hblocks in Hb, Hp.
    destruct (decide (i < length (blocks bc))%nat) as [Hlt | Hge].
    + rewrite lookup_app_l in Hb by exact Hlt. rewrite lookup_app_l in Hp by lia.
      exact (IH i b p Hi Hb Hp).
    + assert (i = length (blocks bc)) as ->.
      { apply lookup_lt_Some in Hb. rewrite length_app in Hb. cbn in Hb. lia. }
      rewrite lookup_app_r in Hb by lia. rewrite Nat.sub_diag in Hb.
      injection Hb as <-.
      rewrite lookup_app_l in Hp by lia. rewrite last_lookup in Htail.
      replace (length (blocks bc) - 1)%nat with (pred (length (blocks bc))) in Hp by lia.
      rewrite Hp in Htail. injection Htail as <-.
      split; [exact Hprev |]. split; [symmetry; exact Hhash |].
      apply isHashValid_leading_zeros. exact Hv.
Qed.

(** X26: the genesis block of the earlier program carries the number 0 and
    stores, whatever the clock, the hash of the text 0 - that of the zero
    [Block] - which does not start with six characters 0; the hash of the
    genesis block's own fields is that of the clock reading followed by
    0. *)
Theorem value_genesis_hash_constant (now : string) :
  Value (NewGenesisBlock now) = 0%Z
  /\ Hash (NewGenesisBlock now) = EncodeToString (Sum256 "0")
  /\ Hash (NewGenesisBlock now)
     = "5feceb66ffc86f38d952786c6d696c79c2dbc239dd4e91b46729d73a27fb57e9"
  /\ isHashValid (Hash (NewGenesisBlock now)) difficulty = false
  /\ calculateHash (NewGenesisBlock now) = EncodeToString (Sum256 (now +:+ "0")).
Proof.
  split; [reflexivity |]. split; [reflexivity |].
  assert (Hash (NewGenesisBlock now)
          = "5feceb66ffc86f38d952786c6d696c79c2dbc239dd4e91b46729d73a27fb57e9")
    as Hhash by (cbn [NewGenesisBlock Hash]; vm_compute; reflexivity).
  split; [exact Hhash |]. split; [rewrite Hhash; vm_compute; reflexivity |].
  reflexivity.
Qed.
End ValueChainFacts.

Lemma value_chain1_reachable : ValueChain.reachable ValueChain.chain1.
Proof.
  apply (ValueChain.reach_write ValueChain.chain0 ValueChain.chain1 4
           ValueChain.now_write 89%Z (ValueChain.Created ValueChain.second_block)).
  - apply ValueChain.reach_init.
  - vm_compute. reflexivity.
Defined.


Lemma value_reachable_linked_and_sealed_witness :
  ValueChain.PrevHash ValueChain.second_block = ValueChain.Hash ValueChain.first_block
  /\ ValueChain.calculateHash ValueChain.second_block
     = ValueChain.Hash ValueChain.second_block
  /\ (forall k, (k < 6)%nat ->
        String.get k (ValueChain.Hash ValueChain.second_block) = Some "0"%char).
Proof.
  apply (value_reachable_linked_and_sealed ValueChain.chain1 1
           ValueChain.second_block ValueChain.first_block).
  - exact value_chain1_reachable.
  - lia.
  - reflexivity.
  - reflexivity.
Defined.

Lemma IsCoinbase_tells_constructors_apart_witness : IsCoinbase tx_bob = false.
Proof.
  apply (proj2 (@IsCoinbase_tells_constructors_apart demo_gob)
           demo_range "Ivan" "Bob" 3%Z ledger0 tx_bob).
  vm_compute. reflexivity.
Defined.

(** ** What every chain keeps, and what serving in turn adds *)

Section Rooted.
Context `{GobEncoder}.




(** Serving in turn is one of the ways of serving at the same time. *)
Lemma reachable_interleaved bc :
  reachable bc -> interleaved_reachable (mkServer bc []).
Proof.
  induction 1 as [now | bc bc' fuel now range m resp _ IH Hstep].
  - apply ireach_init.
  - unfold handleWriteBlock in Hstep.
    destruct (last (blocks bc)) as [tail |] eqn:Htail; [| injection Hstep as <- _; exact IH].
    destruct (generateBlock fuel now range bc tail m) as [[newBlock | e] |] eqn:Hgen;
      [| injection Hstep as <- _; exact IH | discriminate].
    pose (s0 := mkServer bc []).
    pose (s1 := mkServer bc [Generated newBlock]).
    assert (interleaved_reachable s1) as H1.
    { apply (ireach_step s0); [exact IH |].
      exact (step_generate s0 fuel now range m tail newBlock Htail Hgen). }
    pose proof (step_check s1 [] [] newBlock tail eq_refl Htail) as Hcheck.
    cbn [ledger s1] in Hcheck.
    destruct (isBlockValid newBlock tail); injection Hstep as <- _.
    + apply (ireach_step (mkServer bc [Checked newBlock]));
        [apply (ireach_step s1); assumption |].
      exact (step_append (mkServer bc [Checked newBlock]) [] [] newBlock eq_refl).
    + apply (ireach_step s1); assumption.
Qed.

End Rooted.

